(** * A shallow embedding of [src/core/connection/connection.ts]

    The connection object of the MongoDB driver core: the frame
    reassembly loop of [dataHandler], the message dispatch of
    [processMessage], and the lifecycle of [Connection] (constructor,
    [destroy], [write], [isConnected], the socket event handlers and the
    connection accounting table).

    Conventions of the embedding.
    - A [Buffer] is a [list byte]; lengths and the numeric fields
      ([bytesRead], [sizeOfMessage], timeouts, ...) are integers of [Z].
      Non-integral and non-finite JavaScript numbers are outside the model.
    - [null] and [undefined] are both [None].
    - Mutation of [conn] is explicit state passing on the record
      [Connection].  [conn.emit] appends to the log [emitted]; a call of
      the injected [decompress] appends to [inflight] the data its
      callback closes over, and the callback is the function
      [decompressCallback], run whenever the decompressor completes.
    - A JavaScript exception is an explicit outcome ([None] or [Thrown]). *)

From Stdlib Require Import ZArith List Bool Lia String.
From Stdlib Require Import Init.Byte.
From stdpp Require Import base gmap.
Import ListNotations.
Local Open Scope Z_scope.

(** ** Buffers *)

Abbreviation bytes := (list byte).

Definition blen (b : bytes) : Z := Z.of_nat (length b).

Definition u8 (b : byte) : Z := Z.of_N (Byte.to_N b).

(** [SafeBuffer.alloc(n)]: [n] zero bytes. *)
Definition alloc (n : Z) : bytes := repeat x00 (Z.to_nat n).

(** An index argument of [Buffer.slice]: negative counts from the end,
    and the result is clamped to the buffer. *)
Definition slice_index (len i : Z) : Z :=
  if i <? 0 then Z.max (len + i) 0 else Z.min i len.

(** [buf.slice(start, end)]. *)
Definition slice (b : bytes) (start end_ : Z) : bytes :=
  let s := slice_index (blen b) start in
  let e := slice_index (blen b) end_ in
  firstn (Z.to_nat (e - s)) (skipn (Z.to_nat s) b).

(** [buf.slice(start)]. *)
Definition slice_from (b : bytes) (start : Z) : bytes :=
  slice b start (blen b).

(** Overwrite [target] from [targetStart] on with [chunk]; the caller
    guarantees that [chunk] fits. *)
Definition overwrite (target : bytes) (targetStart : Z) (chunk : bytes) : bytes :=
  firstn (Z.to_nat targetStart) target ++ chunk
    ++ skipn (Z.to_nat targetStart + length chunk) target.

(** [source.copy(target, targetStart, sourceStart, sourceEnd)] of Node's
    [Buffer]: a negative argument raises a [RangeError] ([None]); nothing is
    copied when [targetStart] is past the target or the source range is
    empty; otherwise the range is cut to what the target and the source
    hold.  The result is the new content of [target]. *)
Definition copy (source target : bytes) (targetStart sourceStart sourceEnd : Z)
  : option bytes :=
  if (targetStart <? 0) || (sourceStart <? 0) || (sourceEnd <? 0) then None
  else if (blen target <=? targetStart) || (sourceEnd <=? sourceStart) then Some target
  else
    let sourceEnd :=
      if blen target - targetStart <? sourceEnd - sourceStart
      then sourceStart + blen target - targetStart else sourceEnd in
    let nb := sourceEnd - sourceStart in
    let sourceLen := blen source - sourceStart in
    let nb := if sourceLen <? nb then sourceLen else nb in
    Some (overwrite target targetStart
            (firstn (Z.to_nat nb) (skipn (Z.to_nat sourceStart) source))).

(** [source.copy(target, targetStart)]: the whole source. *)
Definition copy_all (source target : bytes) (targetStart : Z) : option bytes :=
  copy source target targetStart 0 (blen source).

(** ** 32-bit integers *)

(** [ToInt32]: wrap to the signed 32-bit range. *)
Definition toInt32 (x : Z) : Z := (x + 2 ^ 31) mod 2 ^ 32 - 2 ^ 31.

(** [x << n] of JavaScript, for [0 <= n < 32]. *)
Definition shl32 (x n : Z) : Z := toInt32 (Z.shiftl (toInt32 x) n).

(** [data[i]] as an operand of [|] and [<<]: [undefined] counts as 0. *)
Definition byte_at (data : bytes) (i : nat) : Z :=
  match nth_error data i with
  | Some b => u8 b
  | None => 0
  end.

(** [data[0] | (data[1] << 8) | (data[2] << 16) | (data[3] << 24)]. *)
Definition read_size (data : bytes) : Z :=
  Z.lor (Z.lor (Z.lor (byte_at data 0) (shl32 (byte_at data 1) 8))
                (shl32 (byte_at data 2) 16))
        (shl32 (byte_at data 3) 24).

(** [buf.readInt32LE(offset)]: a [RangeError] ([None]) unless the four
    bytes are inside the buffer. *)
Definition readInt32LE (b : bytes) (offset : Z) : option Z :=
  if (offset <? 0) || (blen b <? offset + 4) then None
  else Some (read_size (skipn (Z.to_nat offset) b)).

(** ** Messages and notifications *)

Record ResponseOptions := mkResponseOptions {
  promoteLongs : bool;
  promoteValues : bool;
  promoteBuffers : bool
}.

(** The object [parseHeader] returns, with the [fromCompressed] mark
    [processMessage] adds ([undefined] is [false]). *)
Record MsgHeader := mkMsgHeader {
  h_length : Z;
  h_requestId : Z;
  h_responseTo : Z;
  h_opCode : Z;
  h_fromCompressed : bool
}.

(** Modelled from the spec: [parseHeader] of [../wireprotocol/shared], which is
    not among the sources.  The fixed header is four little-endian int32:
    messageLength, requestId, responseTo, opCode.  Reading past the end of
    the frame is the [RangeError] of [readInt32LE]. *)
Definition parseHeader (message : bytes) : option MsgHeader :=
  match readInt32LE message 0, readInt32LE message 4,
        readInt32LE message 8, readInt32LE message 12 with
  | Some len, Some req, Some resp, Some op => Some (mkMsgHeader len req resp op false)
  | _, _, _, _ => None
  end.

(** Modelled from the spec: [MESSAGE_HEADER_SIZE] of [../wireprotocol/shared]; the
    fixed header is 16 bytes. *)
Definition MESSAGE_HEADER_SIZE : Z := 16.

(** Which constructor built the message: [BinMsg] or [Response]. *)
Inductive ResponseConstructor := BinMsg | Response.

(** Modelled from the spec: [BinMsg] and [Response] of [./msg] and [./commands],
    which are not among the sources: a decoded message carries the raw
    frame, the header, the body and the response options. *)
Record DecodedMessage := mkDecodedMessage {
  m_variant : ResponseConstructor;
  m_raw : bytes;
  m_header : MsgHeader;
  m_body : bytes;
  m_opts : ResponseOptions
}.

(** Errors carried by notifications.  [SocketErr n] and [DecompressErr n]
    stand for the error objects of the socket and of the decompressor. *)
Inductive Error :=
| SocketErr (code : Z)
| DecompressErr (code : Z)
| MongoNetworkError_wrap (cause : Error)
| MongoNetworkError_timedOut (id : Z) (host : string) (port : Z)
| MongoNetworkError_closed (id : Z) (host : string) (port : Z)
| MongoError_corrupt.

(** The [errorObject] of a [parseError] notification. *)
Record ParseErrorObject := mkParseErrorObject {
  pe_trace : option string;
  pe_bin : option bytes;
  pe_sizeOfMessage : Z;
  pe_bytesRead : Z;
  pe_stubBuffer : option bytes
}.

Inductive Event :=
| EvError (e : Error)
| EvTimeout (e : Error)
| EvClose (e : Error)
| EvParseError (o : ParseErrorObject)
| EvMessage (m : DecodedMessage).

(** What the callback handed to [decompress] closes over, with the two
    arguments of the call. *)
Record DecompressCall := mkDecompressCall {
  d_compressorID : option byte;
  d_payload : bytes;
  d_header : MsgHeader;
  d_message : bytes
}.

(** ** The socket *)

(** A user callback is named by a number; a call of it is logged with the
    error it received. *)
Definition Callback := nat.

Inductive SocketCall :=
| SockDestroy
| SockEnd (callback : option Callback)
| SockWrite (b : bytes)
| SockSetTimeout (value : Z).

(** The flags of [net.Socket] the connection reads, and the calls it made
    on the socket, oldest first. *)
Record Socket := mkSocket {
  sock_destroyed : bool;
  sock_writable : bool;
  sock_calls : list SocketCall
}.

(** ** The connection *)

Record Connection := mkConnection {
  id : Z;
  host : string;
  port : Z;
  keepAlive : bool;
  keepAliveInitialDelay : Z;
  connectionTimeout : Z;
  socketTimeout : Z;
  maxBsonMessageSize : Z;
  responseOptions : ResponseOptions;
  destroyed : bool;
  socket : option Socket;
  (* Parsing types *)
  bytesRead : Z;
  sizeOfMessage : Z;
  buffer : option bytes;
  stubBuffer : option bytes;
  (* effects *)
  emitted : list Event;
  inflight : list DecompressCall
}.

(** [conn.emit(...)]. *)
Definition emit (ev : Event) (c : Connection) : Connection :=
  mkConnection (id c) (host c) (port c) (keepAlive c) (keepAliveInitialDelay c)
    (connectionTimeout c) (socketTimeout c) (maxBsonMessageSize c)
    (responseOptions c) (destroyed c) (socket c)
    (bytesRead c) (sizeOfMessage c) (buffer c) (stubBuffer c)
    (emitted c ++ [ev]) (inflight c).

(** The call [decompress(compressorID, payload, callback)]. *)
Definition call_decompress (d : DecompressCall) (c : Connection) : Connection :=
  mkConnection (id c) (host c) (port c) (keepAlive c) (keepAliveInitialDelay c)
    (connectionTimeout c) (socketTimeout c) (maxBsonMessageSize c)
    (responseOptions c) (destroyed c) (socket c)
    (bytesRead c) (sizeOfMessage c) (buffer c) (stubBuffer c)
    (emitted c) (inflight c ++ [d]).

(** Assignment of the four parse fields. *)
Definition set_parse (buf : option bytes) (size read : Z) (stub : option bytes)
    (c : Connection) : Connection :=
  mkConnection (id c) (host c) (port c) (keepAlive c) (keepAliveInitialDelay c)
    (connectionTimeout c) (socketTimeout c) (maxBsonMessageSize c)
    (responseOptions c) (destroyed c) (socket c)
    read size buf stub
    (emitted c) (inflight c).

(** "Reset state of buffer": the four assignments that clear the parser. *)
Definition reset_parse (c : Connection) : Connection := set_parse None 0 0 None c.

Definition set_destroyed (v : bool) (c : Connection) : Connection :=
  mkConnection (id c) (host c) (port c) (keepAlive c) (keepAliveInitialDelay c)
    (connectionTimeout c) (socketTimeout c) (maxBsonMessageSize c)
    (responseOptions c) v (socket c)
    (bytesRead c) (sizeOfMessage c) (buffer c) (stubBuffer c)
    (emitted c) (inflight c).

Definition set_socket (s : option Socket) (c : Connection) : Connection :=
  mkConnection (id c) (host c) (port c) (keepAlive c) (keepAliveInitialDelay c)
    (connectionTimeout c) (socketTimeout c) (maxBsonMessageSize c)
    (responseOptions c) (destroyed c) s
    (bytesRead c) (sizeOfMessage c) (buffer c) (stubBuffer c)
    (emitted c) (inflight c).

(** ** Message dispatch *)

(** The opcode table of [../wireprotocol/shared] is not among the sources;
    its two entries used here are parameters of the development. *)
Class Opcodes := mkOpcodes {
  OP_COMPRESSED : Z;
  OP_MSG : Z
}.

Section Dispatch.

Context `{Opcodes}.

(** [msgHeader.opCode === OP_MSG ? BinMsg : Response]. *)
Definition select_constructor (opCode : Z) : ResponseConstructor :=
  if opCode =? OP_MSG then BinMsg else Response.

(** The callback [processMessage] hands to [decompress], run with the
    decompressor's result on the connection as it is at that time. *)
Definition decompressCallback (d : DecompressCall) (result : Error + bytes)
    (conn : Connection) : Connection :=
  match result with
  | inl err => emit (EvError err) conn
  | inr decompressedMsgBody =>
      if negb (blen decompressedMsgBody =? h_length (d_header d)) then
        emit (EvError MongoError_corrupt) conn
      else
        emit (EvMessage (mkDecodedMessage
                           (select_constructor (h_opCode (d_header d)))
                           (d_message d) (d_header d) decompressedMsgBody
                           (responseOptions conn))) conn
  end.

(** [processMessage(conn, message)]; [None] when reading the header
    throws. *)
Definition processMessage (conn : Connection) (message : bytes) : option Connection :=
  match parseHeader message with
  | None => None
  | Some msgHeader =>
      if negb (h_opCode msgHeader =? OP_COMPRESSED) then
        Some (emit (EvMessage (mkDecodedMessage
                                 (select_constructor (h_opCode msgHeader))
                                 message msgHeader
                                 (slice_from message MESSAGE_HEADER_SIZE)
                                 (responseOptions conn))) conn)
      else
        let index := MESSAGE_HEADER_SIZE in
        match readInt32LE message index with
        | None => None
        | Some opCode =>
            let index := index + 4 in
            match readInt32LE message index with
            | None => None
            | Some length =>
                let msgHeader :=
                  mkMsgHeader length (h_requestId msgHeader)
                    (h_responseTo msgHeader) opCode true in
                let index := index + 4 in
                let compressorID := nth_error message (Z.to_nat index) in
                let index := index + 1 in
                Some (call_decompress
                        (mkDecompressCall compressorID (slice_from message index)
                           msgHeader message) conn)
            end
        end
  end.

(** ** The data handler *)

(** How one turn of the [while] loop ends. *)
Inductive Turn :=
| Continue (conn : Connection) (data : bytes)
| Return (conn : Connection)
| Throw (conn : Connection).

(** [processMessage(conn, emitBuffer)] at the end of a turn that goes on
    with [data]. *)
Definition dispatch (conn : Connection) (emitBuffer data : bytes) : Turn :=
  match processMessage conn emitBuffer with
  | Some conn' => Continue conn' data
  | None => Throw conn
  end.

(** [conn.stubBuffer != null && conn.stubBuffer.length > 0]. *)
Definition held_stub (conn : Connection) : option bytes :=
  match stubBuffer conn with
  | Some stub => if 0 <? blen stub then Some stub else None
  | None => None
  end.

(** [conn.bytesRead > 0 && conn.sizeOfMessage > 0]. *)
Definition accumulating (conn : Connection) : bool :=
  (0 <? bytesRead conn) && (0 <? sizeOfMessage conn).

(** The body of the [while (data.length > 0)] loop. *)
Definition turn (conn : Connection) (data : bytes) : Turn :=
  if accumulating conn then
    let remainingBytesToRead := sizeOfMessage conn - bytesRead conn in
    if blen data <? remainingBytesToRead then
      match buffer conn with
      | None => Throw conn
      | Some buf =>
          match copy_all data buf (bytesRead conn) with
          | None => Throw conn
          | Some buf' =>
              Continue (set_parse (Some buf') (sizeOfMessage conn)
                          (bytesRead conn + blen data) (stubBuffer conn) conn)
                       (alloc 0)
          end
      end
    else
      match buffer conn with
      | None => Throw conn
      | Some buf =>
          match copy data buf (bytesRead conn) 0 remainingBytesToRead with
          | None => Throw conn
          | Some emitBuffer =>
              let data := slice_from data remainingBytesToRead in
              dispatch (reset_parse conn) emitBuffer data
          end
      end
  else
    match held_stub conn with
    | Some stub =>
        if 4 <? blen stub + blen data then
          match copy_all stub (alloc (blen stub + blen data)) 0 with
          | None => Throw conn
          | Some newData =>
              match copy_all data newData (blen stub) with
              | None => Throw conn
              | Some newData => Continue (reset_parse conn) newData
              end
          end
        else
          (* newStubBuffer is filled and then dropped: conn.stubBuffer is
             not assigned *)
          match copy_all stub (alloc (blen stub + blen data)) 0 with
          | None => Throw conn
          | Some newStubBuffer =>
              match copy_all data newStubBuffer (blen stub) with
              | None => Throw conn
              | Some _ => Continue conn (alloc 0)
              end
          end
    | None =>
        if 4 <? blen data then
          let sizeOfMessage := read_size data in
          if (sizeOfMessage <? 0) || (maxBsonMessageSize conn <? sizeOfMessage) then
            Return (emit (EvParseError
                            (mkParseErrorObject (Some EmptyString) (buffer conn)
                               sizeOfMessage (bytesRead conn) (stubBuffer conn)))
                         conn)
          else if (4 <? sizeOfMessage) && (sizeOfMessage <? maxBsonMessageSize conn)
                  && (blen data <? sizeOfMessage) then
            match copy_all data (alloc sizeOfMessage) 0 with
            | None => Throw conn
            | Some buf =>
                Continue (set_parse (Some buf) sizeOfMessage (blen data) None conn)
                         (alloc 0)
            end
          else if (4 <? sizeOfMessage) && (sizeOfMessage <? maxBsonMessageSize conn)
                  && (sizeOfMessage =? blen data) then
            dispatch (reset_parse conn) data (alloc 0)
          else if (sizeOfMessage <=? 4) || (maxBsonMessageSize conn <? sizeOfMessage) then
            Continue (reset_parse
                        (emit (EvParseError
                                 (mkParseErrorObject None (Some data)
                                    sizeOfMessage 0 None)) conn))
                     (alloc 0)
          else
            let emitBuffer := slice data 0 sizeOfMessage in
            dispatch (reset_parse conn) emitBuffer (slice_from data sizeOfMessage)
        else
          match copy_all data (alloc (blen data)) 0 with
          | None => Throw conn
          | Some stub => Continue (set_parse (buffer conn) (sizeOfMessage conn)
                                     (bytesRead conn) (Some stub) conn)
                                  (alloc 0)
          end
    end.

(** How a call of the handler ends; [OutOfFuel] is an artefact of the
    model and is shown below never to occur. *)
Inductive Outcome :=
| Finished (conn : Connection)
| Thrown (conn : Connection)
| OutOfFuel.

(** [while (data.length > 0) { ... }]. *)
Fixpoint dataLoop (fuel : nat) (conn : Connection) (data : bytes) : Outcome :=
  if 0 <? blen data then
    match fuel with
    | O => OutOfFuel
    | S fuel =>
        match turn conn data with
        | Continue conn' data' => dataLoop fuel conn' data'
        | Return conn' => Finished conn'
        | Throw conn' => Thrown conn'
        end
    end
  else Finished conn.

(** A bound on the number of turns: a turn in the accumulating state or
    with a held stub is followed only by turns that start with an empty
    parse state, and each of those shortens [data]. *)
Definition turns (conn : Connection) (data : bytes) : nat :=
  (2 * length data +
   (if accumulating conn then 1
    else match held_stub conn with
         | Some stub => 2 * length stub + 1
         | None => 0
         end))%nat.

(** The function [dataHandler(conn)] returns. *)
Definition dataHandler (conn : Connection) (data : bytes) : Outcome :=
  dataLoop (S (turns conn data)) conn data.

End Dispatch.

(** ** Connection accounting *)

Inductive SpyCall :=
| SpyAddConnection (id : Z)
| SpyDeleteConnection (id : Z).

(** The module variables [_id], [connectionAccountingSpy],
    [connectionAccounting] and [connections].  Of the table [connections]
    the keys are kept; a spy is the list of the calls it received. *)
Record Globals := mkGlobals {
  _id : Z;
  connectionAccountingSpy : option (list SpyCall);
  connectionAccounting : bool;
  connections : gset Z
}.

Definition spy_call (call : SpyCall) (spy : option (list SpyCall))
  : option (list SpyCall) :=
  match spy with
  | Some calls => Some (calls ++ [call])
  | None => None
  end.

Definition deleteConnection (id : Z) (g : Globals) : Globals :=
  mkGlobals (_id g) (spy_call (SpyDeleteConnection id) (connectionAccountingSpy g))
    (connectionAccounting g) (connections g ∖ {[id]}).

Definition addConnection (id : Z) (g : Globals) : Globals :=
  mkGlobals (_id g) (spy_call (SpyAddConnection id) (connectionAccountingSpy g))
    (connectionAccounting g) ({[id]} ∪ connections g).

(** [Connection.enableConnectionAccounting(spy)]; [spy] is [true] when a
    spy is passed, and the new spy has received no call. *)
Definition enableConnectionAccounting (spy : bool) (g : Globals) : Globals :=
  mkGlobals (_id g)
    (if spy then Some [] else connectionAccountingSpy g) true ∅.

Definition disableConnectionAccounting (g : Globals) : Globals :=
  mkGlobals (_id g) None false (connections g).

(** [if (connectionAccounting) deleteConnection(conn.id)]. *)
Definition account_delete (id : Z) (g : Globals) : Globals :=
  if connectionAccounting g then deleteConnection id g else g.

(** ** Construction *)

Definition DEFAULT_MAX_BSON_MESSAGE_SIZE : Z := 1024 * 1024 * 16 * 4.

(** The options of the constructor; [None] is an absent option.  [o_bson]
    tells whether a bson parser is passed. *)
Record SocketOptions := mkSocketOptions {
  o_host : option string;
  o_port : option Z;
  o_bson : bool;
  o_keepAlive : option bool;
  o_keepAliveInitialDelay : option Z;
  o_connectionTimeout : option Z;
  o_socketTimeout : option Z;
  o_maxBsonMessageSize : option Z;
  o_promoteLongs : option bool;
  o_promoteValues : option bool;
  o_promoteBuffers : option bool
}.

(** [typeof v === 'number' ? v : d], and the same for booleans. *)
Definition typed_or {A} (v : option A) (d : A) : A :=
  match v with
  | Some x => x
  | None => d
  end.

(** [v || d] on numbers: 0 is falsy. *)
Definition number_or (v : option Z) (d : Z) : Z :=
  match v with
  | Some x => if x =? 0 then d else x
  | None => d
  end.

(** [v || d] on strings: the empty string is falsy. *)
Definition string_or (v : option string) (d : string) : string :=
  match v with
  | Some EmptyString => d
  | Some x => x
  | None => d
  end.

(** [Math.round(n / 2)] for an integer [n]: halves round up. *)
Definition round_half (n : Z) : Z := (n + 1) / 2.

(** The value the constructor leaves in [this.keepAliveInitialDelay]. *)
Definition effective_keepAliveInitialDelay (options : SocketOptions) : Z :=
  let socketTimeout := typed_or (o_socketTimeout options) 360000 in
  let keepAliveInitialDelay := typed_or (o_keepAliveInitialDelay options) 300000 in
  if socketTimeout <? keepAliveInitialDelay then round_half socketTimeout
  else keepAliveInitialDelay.

(** The object the constructor builds, with the [id] it took from [_id].
    The fields [logger], [bson], [tag], [flushing], [queue], [writeStream],
    [hashedName] and [workItems] are left out. *)
Definition new_connection (id : Z) (socket : Socket) (options : SocketOptions)
  : Connection :=
  mkConnection id
    (string_or (o_host options) "localhost")
    (number_or (o_port options) 27017)
    (typed_or (o_keepAlive options) true)
    (effective_keepAliveInitialDelay options)
    (typed_or (o_connectionTimeout options) 30000)
    (typed_or (o_socketTimeout options) 360000)
    (number_or (o_maxBsonMessageSize options) DEFAULT_MAX_BSON_MESSAGE_SIZE)
    (mkResponseOptions (typed_or (o_promoteLongs options) true)
       (typed_or (o_promoteValues options) true)
       (typed_or (o_promoteBuffers options) false))
    false (Some socket)
    0 0 None None
    [] [].

(** [new Connection(socket, options)]; [None] is the [TypeError] for a
    missing bson parser. *)
Definition construct (socket : Socket) (options : SocketOptions) (g : Globals)
  : option (Globals * Connection) :=
  if negb (o_bson options) then None
  else
    let id := _id g in
    let g := mkGlobals (id + 1) (connectionAccountingSpy g)
               (connectionAccounting g) (connections g) in
    Some (if connectionAccounting g then addConnection id g else g,
          new_connection id socket options).

(** ** Lifecycle *)

(** The module variables, the connection, and the calls of user
    callbacks made so far, each with the error passed. *)
Record World := mkWorld {
  w_globals : Globals;
  w_conn : Connection;
  w_invoked : list (Callback * option Error)
}.

(** [if (typeof callback === 'function') callback(err, null)]. *)
Definition invoke (callback : option Callback) (err : option Error)
    (invoked : list (Callback * option Error)) : list (Callback * option Error) :=
  match callback with
  | Some f => invoked ++ [(f, err)]
  | None => invoked
  end.

(** A method call on the socket.  [socket.destroy()] sets the socket's
    [destroyed] flag and clears [writable]; the other calls are logged. *)
Definition socket_call (call : SocketCall) (s : Socket) : Socket :=
  match call with
  | SockDestroy => mkSocket true false (sock_calls s ++ [call])
  | _ => mkSocket (sock_destroyed s) (sock_writable s) (sock_calls s ++ [call])
  end.

(** The first argument of [destroy]: absent, an options object (with or
    without [force]), or the callback. *)
Inductive DestroyOptions :=
| OptUndefined
| OptObject (force : option bool)
| OptFunction (callback : Callback).

(** The callback after
    [if (typeof options === 'function') { callback = options; options = {} }]. *)
Definition destroy_callback (options : DestroyOptions) (callback : option Callback)
  : option Callback :=
  match options with
  | OptFunction f => Some f
  | _ => callback
  end.

(** [Object.assign({ force: false }, options).force]. *)
Definition destroy_force (options : DestroyOptions) : bool :=
  match options with
  | OptObject (Some force) => force
  | _ => false
  end.

(** [conn.destroy(options, callback)]. *)
Definition destroy (options : DestroyOptions) (callback : option Callback)
    (w : World) : World :=
  let callback := destroy_callback options callback in
  let force := destroy_force options in
  let conn := w_conn w in
  let g := account_delete (id conn) (w_globals w) in
  match socket conn with
  | None => mkWorld g (set_destroyed true conn) (w_invoked w)
  | Some s =>
      if force then
        mkWorld g
          (set_destroyed true (set_socket (Some (socket_call SockDestroy s)) conn))
          (invoke callback None (w_invoked w))
      else
        mkWorld g (set_socket (Some (socket_call (SockEnd callback) s)) conn)
          (w_invoked w)
  end.

(** The function [destroy] hands to [socket.end], run when the socket has
    ended, with the socket's error if any. *)
Definition endCallback (callback : option Callback) (err : option Error)
    (w : World) : World :=
  mkWorld (w_globals w) (set_destroyed true (w_conn w))
    (invoke callback err (w_invoked w)).

(** [conn.write(buffer)]: one buffer or an array of buffers.  [None] is
    the [TypeError] of reading [destroyed] of a null socket. *)
Definition write (buffer : bytes + list bytes) (conn : Connection)
  : option (Connection * bool) :=
  match socket conn with
  | None => None
  | Some s =>
      if negb (sock_destroyed s) then
        let buffers := match buffer with inl b => [b] | inr bs => bs end in
        Some (set_socket
                (Some (fold_left (fun s b => socket_call (SockWrite b) s) buffers s))
                conn, true)
      else Some (conn, false)
  end.

(** [conn.isConnected()]; [None] is the [TypeError] on a null socket. *)
Definition isConnected (conn : Connection) : option bool :=
  if destroyed conn then Some false
  else
    match socket conn with
    | None => None
    | Some s => Some (negb (sock_destroyed s) && sock_writable s)
    end.

Definition errorHandler (err : Error) (w : World) : World :=
  let conn := w_conn w in
  mkWorld (account_delete (id conn) (w_globals w))
    (emit (EvError (MongoNetworkError_wrap err)) conn) (w_invoked w).

Definition timeoutHandler (w : World) : World :=
  let conn := w_conn w in
  mkWorld (account_delete (id conn) (w_globals w))
    (emit (EvTimeout (MongoNetworkError_timedOut (id conn) (host conn) (port conn)))
       conn)
    (w_invoked w).

Definition closeHandler (hadError : bool) (w : World) : World :=
  let conn := w_conn w in
  mkWorld (account_delete (id conn) (w_globals w))
    (if negb hadError then
       emit (EvClose (MongoNetworkError_closed (id conn) (host conn) (port conn))) conn
     else conn)
    (w_invoked w).

(** The three transport events that end a connection. *)
Inductive TransportEvent :=
| OnError (err : Error)
| OnTimeout
| OnClose (hadError : bool).

Definition transport (ev : TransportEvent) (w : World) : World :=
  match ev with
  | OnError err => errorHandler err w
  | OnTimeout => timeoutHandler w
  | OnClose hadError => closeHandler hadError w
  end.

(** ** The parse state *)

(** No held parse state. *)
Definition parse_empty (c : Connection) : Prop :=
  bytesRead c = 0 /\ sizeOfMessage c = 0 /\ buffer c = None /\ stubBuffer c = None.

(** The three shapes of the parse state between two calls of the handler:
    empty, a stub of at most 4 bytes, or a frame being accumulated. *)
Inductive parse_state_ok (c : Connection) : Prop :=
| ok_empty :
    parse_empty c -> parse_state_ok c
| ok_stub (stub : bytes) :
    bytesRead c = 0 -> sizeOfMessage c = 0 -> buffer c = None ->
    stubBuffer c = Some stub -> 0 < blen stub <= 4 ->
    parse_state_ok c
| ok_accumulating (buf : bytes) :
    buffer c = Some buf -> blen buf = sizeOfMessage c ->
    4 < bytesRead c < sizeOfMessage c ->
    sizeOfMessage c < maxBsonMessageSize c ->
    stubBuffer c = None ->
    parse_state_ok c.

(** A buffer is held and has bytes in it. *)
Definition nonempty (b : option bytes) : bool :=
  match b with
  | Some x => 0 <? blen x
  | None => false
  end.

(** The invariant of the parse state as the specification words it: not
    both buffers are non-empty, and [bytesRead] is within the frame while
    a frame is accumulated. *)
Definition parse_invariant (c : Connection) : Prop :=
  nonempty (stubBuffer c) && nonempty (buffer c) = false /\
  (nonempty (buffer c) = true \/ accumulating c = true ->
   0 <= bytesRead c <= sizeOfMessage c).

(** The connection a call of the handler leaves, however it ends. *)
Definition after (o : Outcome) : option Connection :=
  match o with
  | Finished c => Some c
  | Thrown c => Some c
  | OutOfFuel => None
  end.

(** [c'] differs from [c] at most in the two logs. *)
Definition same_state (c c' : Connection) : Prop :=
  bytesRead c' = bytesRead c /\ sizeOfMessage c' = sizeOfMessage c /\
  buffer c' = buffer c /\ stubBuffer c' = stubBuffer c /\
  maxBsonMessageSize c' = maxBsonMessageSize c /\
  destroyed c' = destroyed c /\ socket c' = socket c.

(** The buffer holds [received] and has room for [missing] more bytes. *)
Definition accumulated (c : Connection) (received : bytes) (missing : Z) : Prop :=
  buffer c = Some (received ++ alloc missing) /\
  bytesRead c = blen received /\
  sizeOfMessage c = blen received + missing /\
  0 < blen received /\ 0 < missing.

Section Runs.

Context `{Opcodes}.

(** The chunks of successive 'data' events, handled in order. *)
Fixpoint feed (conn : Connection) (chunks : list bytes) : option Connection :=
  match chunks with
  | [] => Some conn
  | data :: chunks =>
      match after (dataHandler conn data) with
      | Some conn' => feed conn' chunks
      | None => None
      end
  end.

(** The handler's result on a chunk that is exactly one frame: the frame
    is handed to [processMessage] on the cleared parser. *)
Definition delivered (conn : Connection) (frame : bytes) : Outcome :=
  match processMessage (reset_parse conn) frame with
  | Some conn' => Finished conn'
  | None => Thrown (reset_parse conn)
  end.

End Runs.

(** ** What one call does *)

(** The notification a transport event makes the connection emit. *)
Definition notification (ev : TransportEvent) (c : Connection) : list Event :=
  match ev with
  | OnError err => [EvError (MongoNetworkError_wrap err)]
  | OnTimeout => [EvTimeout (MongoNetworkError_timedOut (id c) (host c) (port c))]
  | OnClose false => [EvClose (MongoNetworkError_closed (id c) (host c) (port c))]
  | OnClose true => []
  end.

(** The calls of the user callback one call of [destroy] makes before it
    returns. *)
Definition destroy_invokes (options : DestroyOptions) (callback : option Callback)
    (c : Connection) : list (Callback * option Error) :=
  match socket c with
  | None => []
  | Some _ =>
      if destroy_force options
      then invoke (destroy_callback options callback) None []
      else []
  end.

(** The call one call of [destroy] makes on the socket. *)
Definition destroy_socket_call (options : DestroyOptions) (callback : option Callback)
  : SocketCall :=
  if destroy_force options then SockDestroy
  else SockEnd (destroy_callback options callback).

(** ** Concrete inputs *)

(** The two opcodes as the MongoDB wire protocol numbers them; the concrete
    runs below are made with these. *)
#[export] Instance mongodb_opcodes : Opcodes := mkOpcodes 2012 2013.

(** A connected socket on which nothing was called yet. *)
Definition live_socket : Socket := mkSocket false true [].

(** Only the bson parser is passed: every option takes its default. *)
Definition default_options : SocketOptions :=
  mkSocketOptions None None true None None None None None None None None.

Definition globals0 : Globals := mkGlobals 0 None false ∅.

(** The first connection of a process, built with the defaults. *)
Definition conn0 : Connection := new_connection 0 live_socket default_options.

Definition world0 : World := mkWorld (mkGlobals 1 None false ∅) conn0 [].

(** A frame of 16 bytes, header only: messageLength 16, requestId 0,
    responseTo 0, opCode 1. *)
Definition reply_frame : bytes :=
  [x10; x00; x00; x00;  x00; x00; x00; x00;
   x00; x00; x00; x00;  x01; x00; x00; x00].

Definition reply_message : DecodedMessage :=
  mkDecodedMessage Response reply_frame (mkMsgHeader 16 0 0 1 false) []
    (mkResponseOptions true true false).

(** The first 16 bytes of a frame whose length prefix is 0x04000000, the
    default [maxBsonMessageSize]. *)
Definition max_frame_head : bytes :=
  [x00; x00; x00; x04;  x00; x00; x00; x00;
   x00; x00; x00; x00;  x01; x00; x00; x00].

(** Four bytes that decode to -1. *)
Definition negative_prefix : bytes := [xff; xff; xff; xff].

(** A compressed frame of 28 bytes: opCode 2012, originalOpCode 2013,
    uncompressedSize 3, compressorId 0 and a payload of 3 bytes. *)
Definition compressed_frame : bytes :=
  [x1c; x00; x00; x00;  x00; x00; x00; x00;
   x00; x00; x00; x00;  xdc; x07; x00; x00;
   xdd; x07; x00; x00;  x03; x00; x00; x00;
   x00;  x61; x62; x63].

(** The call of [decompress] made for [compressed_frame]. *)
Definition compressed_call : DecompressCall :=
  mkDecompressCall (Some x00) [x61; x62; x63]
    (mkMsgHeader 3 0 0 2013 true) compressed_frame.

(** ** Further predicates and runs *)

(** A frame as the handler accepts it: more than 4 bytes, its length
    prefix equal to its length, and not above the maximum. *)
Definition well_formed (max : Z) (frame : bytes) : Prop :=
  4 < blen frame /\ read_size frame = blen frame /\ blen frame <= max.

(** What the handler never assigns: the identity and configuration of the
    connection, its [destroyed] flag and its socket. *)
Definition settings (c : Connection) :=
  (id c, host c, port c, keepAlive c, keepAliveInitialDelay c,
   connectionTimeout c, socketTimeout c, maxBsonMessageSize c,
   responseOptions c, destroyed c, socket c).

(** [c'] is [c] after some parsing: the settings are the same and the two
    logs have grown at their end. *)
Definition parsed_from (c c' : Connection) : Prop :=
  settings c' = settings c /\
  (exists evs, emitted c' = emitted c ++ evs) /\
  (exists calls, inflight c' = inflight c ++ calls).

(** Every key of the accounting table is an id already given out. *)
Definition table_below_id (g : Globals) : Prop :=
  forall k : Z, k ∈ connections g -> k < _id g.

Section FurtherRuns.

Context `{Opcodes}.

(** The frames handed to [processMessage] one after the other, each on the
    cleared parser, up to the first that throws. *)
Fixpoint deliver_all (conn : Connection) (frames : list bytes) : Outcome :=
  match frames with
  | [] => Finished conn
  | frame :: frames =>
      match processMessage (reset_parse conn) frame with
      | Some conn' => deliver_all conn' frames
      | None => Thrown (reset_parse conn)
      end
  end.

(** The handler on what follows a frame that [processMessage] received. *)
Definition then_handle (conn : Connection) (frame rest : bytes) : Outcome :=
  match processMessage (reset_parse conn) frame with
  | Some conn' => dataHandler conn' rest
  | None => Thrown (reset_parse conn)
  end.

End FurtherRuns.

(** A second frame of 16 bytes, with requestId 7. *)
Definition second_frame : bytes :=
  [x10; x00; x00; x00;  x07; x00; x00; x00;
   x00; x00; x00; x00;  x01; x00; x00; x00].

(** The parser with the first 6 bytes of [reply_frame] accumulated. *)
Definition conn_accumulating : Connection :=
  set_parse (Some (firstn 6 reply_frame ++ alloc 10)) 16 6 None conn0.

(** * Properties *)

(** Decide the integer comparisons of the goal, dropping the branches
    that contradict the context. *)
Ltac zcmp :=
  repeat (match goal with
    | |- context [Z.ltb ?a ?b] => destruct (Z.ltb_spec a b)
    | |- context [Z.leb ?a ?b] => destruct (Z.leb_spec a b)
    | |- context [Z.eqb ?a ?b] => destruct (Z.eqb_spec a b)
    | _ : context [Z.ltb ?a ?b] |- _ => destruct (Z.ltb_spec a b)
    | _ : context [Z.leb ?a ?b] |- _ => destruct (Z.leb_spec a b)
    | _ : context [Z.eqb ?a ?b] |- _ => destruct (Z.eqb_spec a b)
    end; cbn [orb andb negb] in *; try discriminate; try lia).

(** Case analysis on the test of the first conditional of the goal. *)
Ltac case_if :=
  match goal with
  | |- context [if ?b then _ else _] => destruct b eqn:?
  end.

(** Close a closed goal by evaluation. *)
Ltac evaluated :=
  vm_compute; repeat split; first [reflexivity | discriminate].

(** ** Buffers *)

Lemma blen_nonneg (b : bytes) : 0 <= blen b.
Proof. unfold blen. lia. Qed.

Lemma blen_app (a b : bytes) : blen (a ++ b) = blen a + blen b.
Proof. unfold blen. rewrite length_app. lia. Qed.

Lemma blen_nil : blen [] = 0.
Proof. reflexivity. Qed.

Lemma blen_alloc (n : Z) : 0 <= n -> blen (alloc n) = n.
Proof. intros Hn. unfold blen, alloc. rewrite repeat_length. lia. Qed.

Lemma blen_zero_nil (b : bytes) : blen b <= 0 -> b = [].
Proof. destruct b; [reflexivity|]. unfold blen. simpl. lia. Qed.

Lemma alloc_0 : alloc 0 = [].
Proof. reflexivity. Qed.

Lemma alloc_split (n m : Z) :
  0 <= n -> 0 <= m -> alloc (n + m) = alloc n ++ alloc m.
Proof.
  intros Hn Hm. unfold alloc.
  rewrite Z2Nat.inj_add by lia. apply repeat_app.
Qed.

Lemma length_overwrite (target chunk : bytes) (ts : Z) :
  0 <= ts -> ts + blen chunk <= blen target ->
  length (overwrite target ts chunk) = length target.
Proof.
  unfold overwrite, blen. intros H0 H1.
  rewrite !length_app, length_take, length_drop. lia.
Qed.

(** [copy] does not throw on non-negative arguments, and never changes
    the size of the target. *)
Lemma copy_defined (source target : bytes) (ts ss se : Z) :
  0 <= ts -> 0 <= ss -> 0 <= se ->
  exists target', copy source target ts ss se = Some target'.
Proof.
  intros H1 H2 H3. unfold copy. zcmp; eauto.
Qed.

Lemma copy_length (source target target' : bytes) (ts se : Z) :
  copy source target ts 0 se = Some target' -> length target' = length target.
Proof.
  unfold copy. pose proof (blen_nonneg source) as Hs.
  zcmp; intros Hcopy; try discriminate; try congruence;
    injection Hcopy as <-; (apply length_overwrite; [lia|]);
    unfold blen in *; rewrite length_take, length_drop; lia.
Qed.

(** Copying a whole buffer at the first free position of a target that
    has room for it. *)
Lemma copy_all_append (data pre : bytes) (room : Z) :
  blen data <= room ->
  copy_all data (pre ++ alloc room) (blen pre)
  = Some (pre ++ data ++ alloc (room - blen data)).
Proof.
  intros Hroom. pose proof (blen_nonneg data) as Hd.
  pose proof (blen_nonneg pre) as Hp.
  unfold copy_all, copy.
  rewrite blen_app, blen_alloc by lia.
  destruct (Z.eq_dec (blen data) 0) as [H0|H0].
  - rewrite (blen_zero_nil data) by lia. rewrite blen_nil.
    zcmp; rewrite ?Z.sub_0_r; reflexivity.
  - zcmp. f_equal. unfold overwrite, blen.
    rewrite Nat2Z.id, take_app_length. f_equal.
    rewrite Z.sub_0_r, Nat2Z.id, drop_0, firstn_all. f_equal.
    rewrite drop_app_add' by reflexivity.
    replace room with (blen data + (room - blen data)) at 1 by lia.
    rewrite alloc_split by lia.
    unfold alloc at 1. unfold blen. rewrite Nat2Z.id.
    rewrite <- (repeat_length x00 (length data)) at 1.
    apply drop_app_length.
Qed.
Lemma copy_all_alloc (data : bytes) (n : Z) :
  blen data <= n -> copy_all data (alloc n) 0 = Some (data ++ alloc (n - blen data)).
Proof. intros H. apply (copy_all_append data [] n H). Qed.

Lemma copy_all_alloc_exact (data : bytes) :
  copy_all data (alloc (blen data)) 0 = Some data.
Proof.
  rewrite copy_all_alloc by lia.
  rewrite Z.sub_diag, alloc_0, app_nil_r. reflexivity.
Qed.

(** The last piece of a frame: the copy is cut at [remaining]. *)
(** The last piece of a frame: the copy is cut at [remaining]. *)
Lemma copy_remaining (data pre : bytes) (remaining : Z) :
  0 < remaining <= blen data ->
  copy data (pre ++ alloc remaining) (blen pre) 0 remaining
  = Some (pre ++ firstn (Z.to_nat remaining) data).
Proof.
  intros Hrem. pose proof (blen_nonneg pre) as Hp.
  unfold copy.
  rewrite blen_app, blen_alloc by lia.
  zcmp. f_equal. unfold overwrite, blen.
  rewrite Nat2Z.id, take_app_length, drop_0, Z.sub_0_r. f_equal.
  rewrite drop_ge; [apply app_nil_r|].
  rewrite length_firstn. rewrite length_app. unfold alloc, blen in *.
  rewrite repeat_length. lia.
Qed.

Lemma slice_from_all (b : bytes) (n : Z) : blen b <= n -> slice_from b n = [].
Proof.
  intros H. pose proof (blen_nonneg b).
  unfold slice_from, slice, slice_index. zcmp.
  rewrite Z.min_id, (Z.min_r n) by lia.
  rewrite Z.sub_diag. reflexivity.
Qed.

Lemma slice_from_drop (b : bytes) (n : Z) :
  0 <= n -> slice_from b n = skipn (Z.to_nat n) b.
Proof.
  intros H. pose proof (blen_nonneg b).
  unfold slice_from, slice, slice_index. zcmp.
  rewrite Z.min_id.
  destruct (Z.le_gt_cases n (blen b)) as [Hle|Hgt].
  - rewrite Z.min_l by lia. apply firstn_all2.
    rewrite length_drop. unfold blen in *. lia.
  - rewrite Z.min_r, Z.sub_diag by lia. simpl.
    symmetry. apply drop_ge. unfold blen in *. lia.
Qed.

Lemma slice_0_take (b : bytes) (n : Z) :
  0 <= n -> slice b 0 n = firstn (Z.to_nat n) b.
Proof.
  intros H. pose proof (blen_nonneg b).
  unfold slice, slice_index. zcmp.
  replace (Z.min 0 (blen b)) with 0 by lia.
  rewrite Z.sub_0_r. change (Z.to_nat 0) with 0%nat. rewrite drop_0.
  destruct (Z.le_gt_cases n (blen b)) as [Hle|Hgt].
  - rewrite Z.min_l by lia. reflexivity.
  - rewrite Z.min_r by lia.
    rewrite !firstn_all2; unfold blen in *; try lia. reflexivity.
Qed.

Lemma length_slice_from (b : bytes) (n : Z) :
  0 < n -> 0 < blen b -> (length (slice_from b n) < length b)%nat.
Proof.
  intros Hn Hb. rewrite slice_from_drop by lia.
  rewrite length_drop. unfold blen in *. lia.
Qed.

Section Parser.

Context `{Opcodes}.

Lemma same_state_emit (ev : Event) (c : Connection) : same_state c (emit ev c).
Proof. repeat split. Qed.

Lemma processMessage_same_state (c c' : Connection) (message : bytes) :
  processMessage c message = Some c' -> same_state c c'.
Proof.
  unfold processMessage. intros Hp.
  destruct (parseHeader message); [|discriminate].
  destruct (negb _).
  - injection Hp as <-. repeat split.
  - destruct (readInt32LE message MESSAGE_HEADER_SIZE); [|discriminate].
    destruct (readInt32LE message (MESSAGE_HEADER_SIZE + 4)); [|discriminate].
    injection Hp as <-. repeat split.
Qed.

Lemma parse_empty_ok_same (c c' : Connection) :
  same_state c c' -> parse_state_ok c -> parse_state_ok c'.
Proof.
  intros (Hr & Hs & Hb & Hst & Hm & _) Hok.
  destruct Hok as [(E1 & E2 & E3 & E4)|stub E1 E2 E3 E4 E5|buf E1 E2 E3 E4 E5].
  - apply ok_empty. unfold parse_empty. rewrite Hr, Hs, Hb, Hst. auto.
  - apply (ok_stub _ stub); congruence.
  - apply (ok_accumulating _ buf); congruence.
Qed.

Lemma reset_parse_empty (c : Connection) : parse_empty (reset_parse c).
Proof. repeat split. Qed.

(** Whatever a dispatch does, it leaves the parser as it found it. *)
Lemma dispatch_ok (c : Connection) (emitBuffer data : bytes) :
  parse_state_ok c ->
  match dispatch c emitBuffer data with
  | Continue c' _ => parse_state_ok c'
  | Return c' => parse_state_ok c'
  | Throw c' => parse_state_ok c'
  end.
Proof.
  intros Hok. unfold dispatch.
  destruct (processMessage c emitBuffer) as [c'|] eqn:Hp; [|exact Hok].
  apply processMessage_same_state in Hp.
  eapply parse_empty_ok_same; eauto.
Qed.

Lemma held_stub_of (c : Connection) (stub : bytes) :
  stubBuffer c = Some stub -> 0 < blen stub -> held_stub c = Some stub.
Proof. intros Hs Hl. unfold held_stub. rewrite Hs. zcmp; reflexivity. Qed.

Lemma held_stub_none (c : Connection) : stubBuffer c = None -> held_stub c = None.
Proof. intros Hs. unfold held_stub. rewrite Hs. reflexivity. Qed.

Lemma accumulating_no (c : Connection) : bytesRead c = 0 -> accumulating c = false.
Proof. intros Hr. unfold accumulating. rewrite Hr. reflexivity. Qed.

(** The concatenation built when a stub is held. *)
Lemma concat_stub (stub data : bytes) :
  match copy_all stub (alloc (blen stub + blen data)) 0 with
  | Some newData => copy_all data newData (blen stub)
  | None => None
  end = Some (stub ++ data).
Proof.
  pose proof (blen_nonneg stub). pose proof (blen_nonneg data).
  rewrite copy_all_alloc by lia.
  replace (blen stub + blen data - blen stub) with (blen data) by lia.
  rewrite (copy_all_append data stub (blen data)) by lia.
  rewrite Z.sub_diag, alloc_0, app_nil_r. reflexivity.
Qed.

(** One turn of the loop keeps the parse state in one of its three
    shapes. *)
Lemma turn_ok (c : Connection) (data : bytes) :
  parse_state_ok c -> 0 < blen data ->
  match turn c data with
  | Continue c' _ => parse_state_ok c'
  | Return c' => parse_state_ok c'
  | Throw c' => parse_state_ok c'
  end.
Proof.
  intros Hok Hd.
  unfold turn.
  destruct Hok as [(E1 & E2 & E3 & E4)|stub E1 E2 E3 E4 E5|buf E1 E2 E3 E4 E5].
  - (* empty *)
    rewrite accumulating_no, held_stub_none by assumption.
    repeat (case_if; zcmp).
    all: try (apply dispatch_ok, ok_empty, reset_parse_empty).
    + apply ok_empty. repeat split; assumption.
    + apply ok_empty. repeat split; assumption.
    + rewrite copy_all_alloc by lia.
      eapply ok_accumulating; simpl; eauto.
      rewrite blen_app, blen_alloc by lia. lia.
    + apply ok_empty. repeat split.
    + rewrite copy_all_alloc_exact.
      apply (ok_stub _ data); simpl; auto; lia.
  - (* a stub is held *)
    rewrite accumulating_no, (held_stub_of c stub) by (assumption || lia).
    pose proof (concat_stub stub data) as Hcat.
    case_if; (destruct (copy_all stub _ 0); [|discriminate]); rewrite Hcat.
    + apply ok_empty, reset_parse_empty.
    + apply (ok_stub _ stub); assumption.
  - (* a frame is accumulated *)
    assert (accumulating c = true) as ->.
    { unfold accumulating. zcmp; reflexivity. }
    rewrite E1. case_if; zcmp.
    + unfold copy_all.
      destruct (copy_defined data buf (bytesRead c) 0 (blen data))
        as [buf' Hcopy]; try lia.
      rewrite Hcopy. apply copy_length in Hcopy.
      apply (ok_accumulating _ buf'); simpl; auto.
      * unfold blen in *. lia.
      * lia.
    + destruct (copy_defined data buf (bytesRead c) 0
                  (sizeOfMessage c - bytesRead c)) as [buf' Hcopy]; try lia.
      rewrite Hcopy.
      apply dispatch_ok, ok_empty, reset_parse_empty.
Qed.

(** ** Termination of the loop *)

Lemma turns_after_dispatch (c c' : Connection) (data : bytes) :
  same_state (reset_parse c) c' -> turns c' data = (2 * length data)%nat.
Proof.
  intros (Hr & Hs & Hb & Hst & _). unfold turns, accumulating, held_stub.
  rewrite Hr, Hst. simpl. lia.
Qed.

Lemma length_slice_le (b : bytes) (s e : Z) : (length (slice b s e) <= length b)%nat.
Proof. unfold slice. rewrite length_take, length_drop. lia. Qed.

Lemma dispatch_continue (c c' : Connection) (emitBuffer data data' : bytes) :
  dispatch c emitBuffer data = Continue c' data' -> same_state c c' /\ data' = data.
Proof.
  unfold dispatch. destruct (processMessage c emitBuffer) eqn:Hp; [|discriminate].
  intros [= <- <-]. split; [|reflexivity].
  eapply processMessage_same_state; eauto.
Qed.

(** A turn that goes on with bytes left lowers the bound [turns]. *)
Lemma turn_decreases (c c' : Connection) (data data' : bytes) :
  0 < blen data -> turn c data = Continue c' data' ->
  data' = [] \/ (turns c' data' < turns c data)%nat.
Proof.
  intros Hd. unfold turn.
  destruct (accumulating c) eqn:Hacc.
  - destruct (buffer c) as [buf|]; [|case_if; discriminate].
    case_if.
    + destruct (copy_all data buf (bytesRead c)); [|discriminate].
      intros [= <- <-]. left. reflexivity.
    + destruct (copy data buf _ _ _); [|discriminate].
      intros Hdis. apply dispatch_continue in Hdis as [Hsame ->]. right.
      rewrite (turns_after_dispatch c c') by assumption.
      pose proof (length_slice_le data (sizeOfMessage c - bytesRead c) (blen data)).
      unfold slice_from, turns. rewrite Hacc. lia.
  - destruct (held_stub c) as [stub|] eqn:Hstub.
    + pose proof (concat_stub stub data) as Hcat.
      case_if; (destruct (copy_all stub _ 0); [|discriminate]); rewrite Hcat;
        intros [= <- <-].
      * right. unfold turns. simpl. rewrite Hacc, Hstub, length_app. lia.
      * left. reflexivity.
    + repeat (case_if; zcmp); try discriminate;
        try (destruct (copy_all data _ 0); [|discriminate]);
        try (intros [= <- <-]; left; reflexivity);
        intros Hdis; apply dispatch_continue in Hdis as [Hsame ->];
        try (left; reflexivity).
      all: right; rewrite (turns_after_dispatch c c') by assumption;
        pose proof (length_slice_from data (read_size data));
        unfold turns; rewrite Hacc, Hstub; lia.
Qed.

Lemma dataLoop_nil (fuel : nat) (c : Connection) : dataLoop fuel c [] = Finished c.
Proof. destruct fuel; reflexivity. Qed.

Lemma dataLoop_step (fuel : nat) (c : Connection) (data : bytes) :
  0 < blen data ->
  dataLoop (S fuel) c data =
  match turn c data with
  | Continue c' data' => dataLoop fuel c' data'
  | Return c' => Finished c'
  | Throw c' => Thrown c'
  end.
Proof. intros Hd. simpl. zcmp; reflexivity. Qed.

(** With [turns] turns of fuel the loop comes to its end. *)
Lemma dataLoop_terminates (fuel : nat) (c : Connection) (data : bytes) :
  (turns c data < fuel)%nat -> exists c', after (dataLoop fuel c data) = Some c'.
Proof.
  revert c data. induction fuel as [|fuel IH]; intros c data Hfuel; [lia|].
  destruct (Z.le_gt_cases (blen data) 0) as [Hd|Hd].
  { rewrite (blen_zero_nil data Hd), dataLoop_nil. simpl. eauto. }
  rewrite dataLoop_step by lia.
  destruct (turn c data) as [c' data'| |] eqn:Hturn; simpl; eauto.
  destruct (turn_decreases c c' data data') as [->|Hlt]; try assumption; try lia.
  - rewrite dataLoop_nil. simpl. eauto.
  - apply IH. lia.
Qed.

(** Fuel beyond what the loop uses does not change its result. *)
Lemma dataLoop_more_fuel (fuel fuel' : nat) (c c' : Connection) (data : bytes) :
  after (dataLoop fuel c data) = Some c' -> (fuel <= fuel')%nat ->
  dataLoop fuel' c data = dataLoop fuel c data.
Proof.
  revert fuel' c data. induction fuel as [|fuel IH]; intros fuel' c data Hres Hle.
  - destruct (Z.le_gt_cases (blen data) 0) as [Hd|Hd].
    + rewrite (blen_zero_nil data Hd), !dataLoop_nil. reflexivity.
    + exfalso. revert Hres. simpl. zcmp.
  - destruct fuel' as [|fuel']; [lia|].
    destruct (Z.le_gt_cases (blen data) 0) as [Hd|Hd].
    + rewrite (blen_zero_nil data Hd), !dataLoop_nil. reflexivity.
    + rewrite dataLoop_step in Hres by lia. rewrite !dataLoop_step by lia.
      destruct (turn c data); try reflexivity.
      apply IH; [assumption|lia].
Qed.

Lemma dataLoop_enough (fuel : nat) (c : Connection) (data : bytes) :
  (turns c data < fuel)%nat -> dataLoop fuel c data = dataHandler c data.
Proof.
  intros Hfuel. unfold dataHandler.
  destruct (dataLoop_terminates (S (turns c data)) c data) as [c' Hc']; [lia|].
  apply (dataLoop_more_fuel _ fuel) in Hc' as ->; [reflexivity|lia].
Qed.

Lemma dataHandler_nil (c : Connection) : dataHandler c [] = Finished c.
Proof. apply dataLoop_nil. Qed.

(** The handler as one turn followed by the handler on what is left. *)
Lemma dataHandler_step (c : Connection) (data : bytes) :
  0 < blen data ->
  dataHandler c data =
  match turn c data with
  | Continue c' data' => dataHandler c' data'
  | Return c' => Finished c'
  | Throw c' => Thrown c'
  end.
Proof.
  intros Hd. unfold dataHandler at 1. rewrite dataLoop_step by assumption.
  destruct (turn c data) as [c' data'| |] eqn:Hturn; try reflexivity.
  destruct (turn_decreases c c' data data') as [->|Hlt]; try assumption.
  - rewrite dataLoop_nil, dataHandler_nil. reflexivity.
  - apply dataLoop_enough. lia.
Qed.

(** The handler always comes to an end. *)
Lemma dataHandler_total (c : Connection) (data : bytes) :
  exists c', after (dataHandler c data) = Some c'.
Proof. apply dataLoop_terminates. lia. Qed.

(** ** The invariant of the parse state *)

Lemma dataLoop_ok (fuel : nat) (c c' : Connection) (data : bytes) :
  parse_state_ok c -> after (dataLoop fuel c data) = Some c' -> parse_state_ok c'.
Proof.
  revert c data. induction fuel as [|fuel IH]; intros c data Hok.
  - simpl. case_if; [discriminate|]. intros [= <-]. exact Hok.
  - destruct (Z.le_gt_cases (blen data) 0) as [Hd|Hd].
    { rewrite (blen_zero_nil data Hd), dataLoop_nil. intros [= <-]. exact Hok. }
    rewrite dataLoop_step by lia.
    pose proof (turn_ok c data Hok Hd) as Hturn.
    destruct (turn c data) as [c1 data1|c1|c1].
    + apply IH. exact Hturn.
    + intros [= <-]. exact Hturn.
    + intros [= <-]. exact Hturn.
Qed.

Lemma dataHandler_ok (c : Connection) (data : bytes) :
  parse_state_ok c ->
  exists c', after (dataHandler c data) = Some c' /\ parse_state_ok c'.
Proof.
  intros Hok. destruct (dataHandler_total c data) as [c' Hc'].
  exists c'. split; [exact Hc'|]. eapply dataLoop_ok; eauto.
Qed.

Lemma feed_ok (chunks : list bytes) (c : Connection) :
  parse_state_ok c -> exists c', feed c chunks = Some c' /\ parse_state_ok c'.
Proof.
  revert c. induction chunks as [|data chunks IH]; intros c Hok; simpl.
  - eauto.
  - destruct (dataHandler_ok c data Hok) as (c1 & -> & Hok1). apply IH, Hok1.
Qed.

Lemma parse_state_ok_invariant (c : Connection) :
  parse_state_ok c -> parse_invariant c.
Proof.
  intros [(E1 & E2 & E3 & E4)|stub E1 E2 E3 E4 E5|buf E1 E2 E3 E4 E5];
    unfold parse_invariant, accumulating; rewrite ?E1, ?E2, ?E3, ?E4, ?E5; simpl.
  - split; [reflexivity|]. intros [?|?]; discriminate.
  - split; [apply andb_false_r|]. intros [?|?]; discriminate.
  - split; [reflexivity|]. intros _. lia.
Qed.

(** ** The handler on an empty parse state *)

Lemma turn_empty (c : Connection) (data : bytes) :
  parse_empty c ->
  turn c data =
  if 4 <? blen data then
    let sizeOfMessage := read_size data in
    if (sizeOfMessage <? 0) || (maxBsonMessageSize c <? sizeOfMessage) then
      Return (emit (EvParseError
                      (mkParseErrorObject (Some EmptyString) None sizeOfMessage 0 None))
                c)
    else if (4 <? sizeOfMessage) && (sizeOfMessage <? maxBsonMessageSize c)
            && (blen data <? sizeOfMessage) then
      Continue (set_parse (Some (data ++ alloc (sizeOfMessage - blen data)))
                  sizeOfMessage (blen data) None c) []
    else if (4 <? sizeOfMessage) && (sizeOfMessage <? maxBsonMessageSize c)
            && (sizeOfMessage =? blen data) then
      dispatch (reset_parse c) data []
    else if (sizeOfMessage <=? 4) || (maxBsonMessageSize c <? sizeOfMessage) then
      Continue (reset_parse
                  (emit (EvParseError
                           (mkParseErrorObject None (Some data) sizeOfMessage 0 None))
                     c)) []
    else
      dispatch (reset_parse c) (slice data 0 sizeOfMessage)
        (slice_from data sizeOfMessage)
  else Continue (set_parse None 0 0 (Some data) c) [].
Proof.
  intros (E1 & E2 & E3 & E4). unfold turn.
  rewrite accumulating_no, held_stub_none by assumption.
  rewrite E1, E2, E3, E4, copy_all_alloc_exact.
  repeat (case_if; zcmp); try reflexivity.
  rewrite copy_all_alloc by lia. reflexivity.
Qed.

(** An out-of-range length prefix at the head of a chunk of more than 4
    bytes: one 'parseError', the handler returns, the chunk is dropped. *)
Lemma handler_bad_length (c : Connection) (chunk : bytes) :
  parse_empty c -> 4 < blen chunk ->
  read_size chunk < 0 \/ maxBsonMessageSize c < read_size chunk ->
  dataHandler c chunk =
  Finished (emit (EvParseError
                    (mkParseErrorObject (Some EmptyString) None (read_size chunk) 0 None))
              c).
Proof.
  intros He Hlen Hbad. rewrite dataHandler_step, turn_empty by (assumption || lia).
  cbv zeta. destruct Hbad; zcmp; reflexivity.
Qed.

Lemma dispatch_finishes (c : Connection) (frame : bytes) :
  match dispatch (reset_parse c) frame [] with
  | Continue c' data' => dataHandler c' data'
  | Return c' => Finished c'
  | Throw c' => Thrown c'
  end = delivered c frame.
Proof.
  unfold dispatch, delivered.
  destruct (processMessage (reset_parse c) frame); [apply dataHandler_nil|reflexivity].
Qed.

(** A chunk that is exactly one frame is handed to [processMessage]. *)
Lemma handler_whole_frame (c : Connection) (frame : bytes) :
  parse_empty c -> 4 < blen frame -> read_size frame = blen frame ->
  blen frame <= maxBsonMessageSize c ->
  dataHandler c frame = delivered c frame.
Proof.
  intros He Hlen Hsize Hmax.
  rewrite dataHandler_step, turn_empty by (assumption || lia).
  cbv zeta. rewrite Hsize.
  repeat (case_if; zcmp); try apply dispatch_finishes.
  rewrite slice_0_take, slice_from_all by lia.
  unfold blen. rewrite Nat2Z.id, firstn_all. apply dispatch_finishes.
Qed.

(** A chunk that starts a frame and does not complete it. *)
Lemma handler_starts_frame (c : Connection) (data : bytes) :
  parse_empty c -> 4 < blen data ->
  read_size data < maxBsonMessageSize c -> blen data < read_size data ->
  dataHandler c data =
  Finished (set_parse (Some (data ++ alloc (read_size data - blen data)))
              (read_size data) (blen data) None c).
Proof.
  intros He Hlen Hmax Hshort.
  rewrite dataHandler_step, turn_empty by (assumption || lia).
  cbv zeta. zcmp. apply dataHandler_nil.
Qed.

(** A chunk of at most 4 bytes becomes the stub. *)
Lemma handler_short_chunk (c : Connection) (data : bytes) :
  parse_empty c -> 0 < blen data <= 4 ->
  dataHandler c data = Finished (set_parse None 0 0 (Some data) c).
Proof.
  intros He Hlen.
  rewrite dataHandler_step, turn_empty by (assumption || lia).
  zcmp. apply dataHandler_nil.
Qed.

(** ** The handler while a frame is accumulated *)

Lemma accumulated_accumulating (c : Connection) (received : bytes) (missing : Z) :
  accumulated c received missing -> accumulating c = true.
Proof.
  intros (Hb & Hr & Hs & Hpos & Hmiss). unfold accumulating. rewrite Hr, Hs.
  zcmp; reflexivity.
Qed.

(** A chunk that does not complete the frame is appended. *)
Lemma handler_accumulates (c : Connection) (received data : bytes) (missing : Z) :
  accumulated c received missing -> 0 < blen data < missing ->
  dataHandler c data =
  Finished (set_parse (Some ((received ++ data) ++ alloc (missing - blen data)))
              (sizeOfMessage c) (blen (received ++ data)) (stubBuffer c) c).
Proof.
  intros Hacc Hlen. rewrite dataHandler_step by lia.
  unfold turn. rewrite (accumulated_accumulating _ _ _ Hacc).
  destruct Hacc as (Hb & Hr & Hs & Hpos & Hmiss). rewrite Hb, Hr, Hs.
  zcmp. rewrite copy_all_append by lia.
  rewrite <- app_assoc, blen_app. apply dataHandler_nil.
Qed.

(** The chunk that brings the last bytes of the frame. *)
Lemma handler_completes (c : Connection) (received data : bytes) (missing : Z) :
  accumulated c received missing -> blen data = missing ->
  dataHandler c data = delivered c (received ++ data).
Proof.
  intros Hacc Hlen. pose proof Hacc as (Hb & Hr & Hs & Hpos & Hmiss).
  rewrite dataHandler_step by lia.
  unfold turn. rewrite (accumulated_accumulating _ _ _ Hacc), Hb, Hr, Hs.
  replace (blen received + missing - blen received) with missing by lia.
  zcmp. rewrite copy_remaining by lia.
  rewrite slice_from_all by lia.
  rewrite <- Hlen. unfold blen. rewrite Nat2Z.id, firstn_all.
  apply dispatch_finishes.
Qed.

(** ** The handler with a held stub *)

Lemma stub_of_ok (c : Connection) (stub : bytes) :
  parse_state_ok c -> stubBuffer c = Some stub ->
  accumulating c = false /\ held_stub c = Some stub /\ 0 < blen stub <= 4.
Proof.
  intros [(E1 & E2 & E3 & E4)|stub' E1 E2 E3 E4 E5|buf E1 E2 E3 E4 E5] Hs;
    try congruence.
  assert (stub' = stub) as -> by congruence.
  split; [apply accumulating_no, E1|]. split; [apply held_stub_of; [assumption|lia]|lia].
Qed.

(** A held stub and a chunk that together have more than 4 bytes: the
    concatenation is parsed on the cleared parser. *)
Lemma handler_stub_concat (c : Connection) (stub data : bytes) :
  accumulating c = false -> held_stub c = Some stub ->
  4 < blen stub + blen data -> 0 < blen data ->
  dataHandler c data = dataHandler (reset_parse c) (stub ++ data).
Proof.
  intros Hacc Hstub Hlen Hd. rewrite dataHandler_step by assumption.
  unfold turn. rewrite Hacc, Hstub. zcmp.
  pose proof (concat_stub stub data) as Hcat.
  destruct (copy_all stub _ 0); [|discriminate]. rewrite Hcat. reflexivity.
Qed.

(** A held stub and a chunk that together have at most 4 bytes: the chunk
    is dropped and the connection is left as it was. *)
Lemma handler_stub_short (c : Connection) (stub data : bytes) :
  accumulating c = false -> held_stub c = Some stub ->
  blen stub + blen data <= 4 ->
  dataHandler c data = Finished c.
Proof.
  intros Hacc Hstub Hlen.
  destruct (Z.le_gt_cases (blen data) 0) as [Hd|Hd].
  { rewrite (blen_zero_nil data Hd). apply dataHandler_nil. }
  rewrite dataHandler_step by lia.
  unfold turn. rewrite Hacc, Hstub. zcmp.
  pose proof (concat_stub stub data) as Hcat.
  destruct (copy_all stub _ 0); [|discriminate]. rewrite Hcat.
  apply dataHandler_nil.
Qed.

(** ** Fragmented frames *)

Lemma byte_at_app (a b : bytes) (i : nat) :
  (i < length a)%nat -> byte_at (a ++ b) i = byte_at a i.
Proof. intros Hi. unfold byte_at. rewrite nth_error_app1 by exact Hi. reflexivity. Qed.

(** The length prefix is read from the first four bytes. *)
Lemma read_size_app (a b : bytes) : 4 <= blen a -> read_size (a ++ b) = read_size a.
Proof.
  intros Ha. unfold read_size, blen in *.
  rewrite !byte_at_app by lia. reflexivity.
Qed.

Lemma after_delivered (c : Connection) (frame : bytes) :
  exists c', after (delivered c frame) = Some c'.
Proof. unfold delivered. destruct (processMessage _ _); simpl; eauto. Qed.

Lemma feed_empty_pieces (pieces : list bytes) (c : Connection) :
  concat pieces = [] -> feed c pieces = Some c.
Proof.
  induction pieces as [|p pieces IH]; intros Hnil; simpl in *; [reflexivity|].
  apply app_eq_nil in Hnil as [-> Hnil].
  rewrite dataHandler_nil. simpl. apply IH, Hnil.
Qed.

(** Once a frame is being accumulated, the pieces that make up the rest
    of it complete it, wherever they are cut. *)
Lemma feed_accumulated (pieces : list bytes) (c : Connection) (received : bytes) :
  accumulated c received (blen (concat pieces)) ->
  feed c pieces = after (delivered c (received ++ concat pieces)).
Proof.
  revert c received.
  induction pieces as [|p pieces IH]; intros c received Hacc.
  { destruct Hacc as (_ & _ & _ & _ & Hmiss). simpl in Hmiss.
    rewrite blen_nil in Hmiss. lia. }
  simpl in *. rewrite blen_app in Hacc.
  pose proof (blen_nonneg p) as Hp.
  pose proof (blen_nonneg (concat pieces)) as Hrest.
  destruct (Z.eq_dec (blen p) 0) as [Hp0|Hp0].
  { assert (p = []) as -> by (apply blen_zero_nil; lia).
    rewrite dataHandler_nil. simpl. apply IH.
    rewrite blen_nil, Z.add_0_l in Hacc. exact Hacc. }
  destruct (Z.eq_dec (blen (concat pieces)) 0) as [Hr0|Hr0].
  - assert (concat pieces = []) as Hnil by (apply blen_zero_nil; lia).
    rewrite Hnil, app_nil_r.
    rewrite (handler_completes c received p (blen p + blen (concat pieces)))
      by (assumption || lia).
    destruct (after_delivered c (received ++ p)) as [c' Hc']. rewrite Hc'.
    apply feed_empty_pieces, Hnil.
  - rewrite (handler_accumulates c received p (blen p + blen (concat pieces)))
      by (assumption || lia).
    simpl. rewrite app_assoc.
    destruct Hacc as (Hb & Hr & Hs & Hpos & Hmiss).
    apply (IH (set_parse _ _ _ _ c) (received ++ p)).
    repeat split; simpl.
    + do 3 f_equal. lia.
    + rewrite Hs, blen_app. lia.
    + rewrite blen_app. lia.
    + lia.
Qed.

(** A frame cut into pieces, the first of more than 4 bytes, is handed to
    [processMessage] once and whole, wherever the other cuts are. *)
Lemma feed_fragmented (c : Connection) (piece : bytes) (pieces : list bytes) :
  parse_empty c -> 4 < blen piece ->
  read_size (piece ++ concat pieces) = blen (piece ++ concat pieces) ->
  blen (piece ++ concat pieces) < maxBsonMessageSize c ->
  feed c (piece :: pieces) = after (delivered c (piece ++ concat pieces)).
Proof.
  intros He Hlen Hsize Hmax. simpl.
  rewrite read_size_app in Hsize by lia. rewrite blen_app in *.
  pose proof (blen_nonneg (concat pieces)) as Hrest.
  destruct (Z.eq_dec (blen (concat pieces)) 0) as [Hr0|Hr0].
  - assert (concat pieces = []) as Hnil by (apply blen_zero_nil; lia).
    rewrite Hnil, app_nil_r.
    rewrite handler_whole_frame by (assumption || lia).
    destruct (after_delivered c piece) as [c' Hc']. rewrite Hc'.
    apply feed_empty_pieces, Hnil.
  - rewrite handler_starts_frame by (assumption || lia).
    simpl. apply (feed_accumulated pieces (set_parse _ _ _ _ c) piece).
    repeat split; simpl; try lia.
    do 3 f_equal. lia.
Qed.

(** The same when the first piece has at most 4 bytes and the second
    brings the total above 4. *)
Lemma feed_fragmented_stub (c : Connection) (first second : bytes)
    (pieces : list bytes) :
  parse_empty c -> 0 < blen first <= 4 -> 4 < blen first + blen second ->
  read_size (first ++ second ++ concat pieces) = blen (first ++ second ++ concat pieces) ->
  blen (first ++ second ++ concat pieces) < maxBsonMessageSize c ->
  feed c (first :: second :: pieces)
  = after (delivered c (first ++ second ++ concat pieces)).
Proof.
  intros He Hfirst Hboth Hsize Hmax.
  change (feed c (first :: second :: pieces))
    with (match after (dataHandler c first) with
          | Some c' => feed c' (second :: pieces)
          | None => None
          end).
  rewrite handler_short_chunk by assumption.
  change (after (Finished ?x)) with (Some x). cbv iota beta.
  change (feed ?x (second :: pieces))
    with (match after (dataHandler x second) with
          | Some c' => feed c' pieces
          | None => None
          end).
  rewrite (handler_stub_concat _ first second);
    [|reflexivity|apply held_stub_of; [reflexivity|lia]|lia|lia].
  rewrite app_assoc in *.
  apply (feed_fragmented (reset_parse (set_parse None 0 0 (Some first) c))
           (first ++ second) pieces);
    [apply reset_parse_empty|rewrite blen_app; lia|assumption..].
Qed.

(** A stream fed one byte at a time is never parsed: the first byte is
    held as the stub and every later byte is dropped. *)
Lemma feed_single_bytes (c : Connection) (b : byte) (rest : bytes) :
  parse_empty c ->
  feed c (map (fun x => [x]) (b :: rest)) = Some (set_parse None 0 0 (Some [b]) c).
Proof.
  intros He. cbn [map feed].
  rewrite handler_short_chunk by (assumption || (unfold blen; simpl; lia)).
  cbn [after]. induction rest as [|x rest IH]; cbn [map feed]; [reflexivity|].
  rewrite (handler_stub_short _ [b] [x]); [exact IH|reflexivity|reflexivity|].
  unfold blen. simpl. lia.
Qed.

End Parser.

(** * The claims on the frame parser *)

(** C1 (the code departs from the claim).  The 16-byte frame [reply_frame]
    fed whole is handed to [processMessage] and yields its one 'message'.
    Fed one byte at a time, nothing is ever emitted: the second and every
    later byte is copied into a new stub buffer that is dropped, so the
    handler ends with the first byte alone as its stub. *)
Theorem C1_single_byte_pieces :
  read_size reply_frame = blen reply_frame /\
  dataHandler conn0 reply_frame = Finished (emit (EvMessage reply_message) conn0) /\
  concat (map (fun b => [b]) reply_frame) = reply_frame /\
  feed conn0 (map (fun b => [b]) reply_frame)
  = Some (set_parse None 0 0 (Some [x10]) conn0) /\
  emitted (set_parse None 0 0 (Some [x10]) conn0) = [] /\
  inflight (set_parse None 0 0 (Some [x10]) conn0) = [].
Proof. repeat split; vm_compute; reflexivity. Qed.

(** C3 (the code departs from the claim).  With the default
    [maxBsonMessageSize] of 0x04000000, a chunk of 16 bytes whose length
    prefix is exactly that maximum is not accumulated: the 16 bytes are
    handed to [processMessage] as if they were the frame, and the parser is
    left empty. *)
Theorem C3_length_equal_to_maximum :
  maxBsonMessageSize conn0 = 67108864 /\
  read_size max_frame_head = 67108864 /\
  blen max_frame_head = 16 /\
  dataHandler conn0 max_frame_head
  = Finished (emit (EvMessage
                      (mkDecodedMessage Response max_frame_head
                         (mkMsgHeader 67108864 0 0 1 false) []
                         (mkResponseOptions true true false))) conn0) /\
  buffer conn0 = None /\ bytesRead conn0 = 0.
Proof. repeat split; vm_compute; reflexivity. Qed.

Section ParserClaims.

Context `{Opcodes}.

Lemma emit_parse_empty (ev : Event) (c : Connection) :
  parse_empty c -> parse_empty (emit ev c).
Proof. intros He. exact He. Qed.

(** C2 (amended).  A chunk of more than 4 bytes, fed with no held parse
    state, whose length prefix is negative or above [maxBsonMessageSize]:
    the handler emits exactly one 'parseError' and returns, dropping the
    whole chunk; the parser is still empty, and a well-formed frame that
    arrives as the next chunk is handed to [processMessage]. *)
Theorem C2_invalid_length_rejected (c : Connection) (chunk : bytes) :
  parse_empty c -> 4 < blen chunk ->
  read_size chunk < 0 \/ maxBsonMessageSize c < read_size chunk ->
  exists c',
    dataHandler c chunk = Finished c' /\
    emitted c' =
      emitted c ++ [EvParseError (mkParseErrorObject (Some EmptyString) None
                                    (read_size chunk) 0 None)] /\
    inflight c' = inflight c /\
    parse_empty c' /\
    forall frame : bytes,
      4 < blen frame -> read_size frame = blen frame ->
      blen frame <= maxBsonMessageSize c ->
      dataHandler c' frame = delivered c' frame.
Proof.
  intros He Hlen Hbad. eexists. split; [apply handler_bad_length; assumption|].
  split; [reflexivity|]. split; [reflexivity|]. split; [apply emit_parse_empty, He|].
  intros frame Hf Hsize Hmax. apply handler_whole_frame; assumption.
Qed.

(** C9 (amended).  When a stub is held and a chunk arrives: if stub and
    chunk together have more than 4 bytes, the held state is cleared and
    the concatenation is parsed as a fresh buffer, its length prefix read
    at offset 0 (an out-of-range prefix gives the 'parseError', a prefix
    equal to the length hands the concatenation to [processMessage]); if
    they have at most 4 bytes, the handler stops without reading a length
    and without emitting anything. *)
Theorem C9_stub_and_chunk (c : Connection) (stub data : bytes) :
  parse_state_ok c -> stubBuffer c = Some stub ->
  (4 < blen stub + blen data ->
   dataHandler c data = dataHandler (reset_parse c) (stub ++ data) /\
   (read_size (stub ++ data) < 0 \/ maxBsonMessageSize c < read_size (stub ++ data) ->
    dataHandler c data
    = Finished (emit (EvParseError
                        (mkParseErrorObject (Some EmptyString) None
                           (read_size (stub ++ data)) 0 None))
                  (reset_parse c))) /\
   (read_size (stub ++ data) = blen (stub ++ data) ->
    blen (stub ++ data) <= maxBsonMessageSize c ->
    dataHandler c data = delivered c (stub ++ data))) /\
  (blen stub + blen data <= 4 ->
   exists c', dataHandler c data = Finished c' /\
              emitted c' = emitted c /\ inflight c' = inflight c).
Proof.
  intros Hok Hs. destruct (stub_of_ok c stub Hok Hs) as (Hacc & Hheld & Hlen).
  pose proof (blen_nonneg data) as Hd.
  split.
  - intros Hmore.
    assert (dataHandler c data = dataHandler (reset_parse c) (stub ++ data)) as Heq
      by (apply handler_stub_concat; (assumption || lia)).
    rewrite Heq. split; [reflexivity|]. split.
    + intros Hbad. apply handler_bad_length;
        [apply reset_parse_empty|rewrite blen_app; lia|exact Hbad].
    + intros Hsize Hmax.
      rewrite handler_whole_frame;
        [reflexivity|apply reset_parse_empty|rewrite blen_app; lia|assumption..].
  - intros Hshort. exists c. split; [|split; reflexivity].
    eapply handler_stub_short; eauto.
Qed.

(** C10.  From a newly constructed connection, whatever chunks are fed,
    every call of the handler comes to an end and leaves the parse state
    within its invariant: not both the stub buffer and the accumulating
    buffer are non-empty, and [0 <= bytesRead <= sizeOfMessage] while a
    frame is accumulated. *)
Theorem C10_parse_state_invariant (socket : Socket) (options : SocketOptions)
    (g g' : Globals) (c : Connection) (chunks : list bytes) :
  construct socket options g = Some (g', c) ->
  exists c', feed c chunks = Some c' /\ parse_invariant c'.
Proof.
  intros Hnew. unfold construct in Hnew.
  destruct (negb (o_bson options)); [discriminate|]. injection Hnew as _ <-.
  destruct (feed_ok chunks (new_connection (_id g) socket options)) as (c' & Hfeed & Hok).
  { apply ok_empty. repeat split. }
  exists c'. split; [exact Hfeed|]. apply parse_state_ok_invariant, Hok.
Qed.

End ParserClaims.

(** The chunk [ff ff ff ff 00] on the first connection. *)
Lemma C2_witness :
  parse_empty conn0 /\ 4 < blen (negative_prefix ++ [x00]) /\
  read_size (negative_prefix ++ [x00]) < 0 /\
  exists c',
    dataHandler conn0 (negative_prefix ++ [x00]) = Finished c' /\
    emitted c' =
      emitted conn0 ++ [EvParseError (mkParseErrorObject (Some EmptyString) None
                          (read_size (negative_prefix ++ [x00])) 0 None)] /\
    inflight c' = inflight conn0 /\
    parse_empty c' /\
    forall frame : bytes,
      4 < blen frame -> read_size frame = blen frame ->
      blen frame <= maxBsonMessageSize conn0 ->
      dataHandler c' frame = delivered c' frame.
Proof.
  assert (parse_empty conn0) as He by (repeat split).
  assert (4 < blen (negative_prefix ++ [x00])) as Hlen by (vm_compute; reflexivity).
  assert (read_size (negative_prefix ++ [x00]) < 0) as Hneg by (vm_compute; reflexivity).
  split; [exact He|]. split; [exact Hlen|]. split; [exact Hneg|].
  apply (C2_invalid_length_rejected conn0 (negative_prefix ++ [x00]) He Hlen).
  left. exact Hneg.
Defined.

(** C2 as stated fails.  A well-formed frame that follows a negative
    length prefix in the same chunk is dropped with it; it is dropped as
    well when the prefix came as a chunk of its own, which is held as a
    stub and raises no 'parseError' by itself. *)
Lemma C2_counterexample :
  parse_empty conn0 /\
  read_size (negative_prefix ++ reply_frame) = -1 /\
  dataHandler conn0 reply_frame = Finished (emit (EvMessage reply_message) conn0) /\
  dataHandler conn0 (negative_prefix ++ reply_frame)
  = Finished (emit (EvParseError
                      (mkParseErrorObject (Some EmptyString) None (-1) 0 None)) conn0) /\
  dataHandler conn0 negative_prefix
  = Finished (set_parse None 0 0 (Some negative_prefix) conn0) /\
  feed conn0 [negative_prefix; reply_frame]
  = Some (emit (EvParseError
                  (mkParseErrorObject (Some EmptyString) None (-1) 0 None)) conn0).
Proof. repeat split; vm_compute; reflexivity. Qed.

(** The stub [10] and the chunk [00 00 00 00 00]. *)
Lemma C9_witness :
  let c := set_parse None 0 0 (Some [x10]) conn0 in
  let stub := [x10] in
  let data := [x00; x00; x00; x00; x00] in
  parse_state_ok c /\ stubBuffer c = Some stub /\
  (4 < blen stub + blen data ->
   dataHandler c data = dataHandler (reset_parse c) (stub ++ data) /\
   (read_size (stub ++ data) < 0 \/ maxBsonMessageSize c < read_size (stub ++ data) ->
    dataHandler c data
    = Finished (emit (EvParseError
                        (mkParseErrorObject (Some EmptyString) None
                           (read_size (stub ++ data)) 0 None))
                  (reset_parse c))) /\
   (read_size (stub ++ data) = blen (stub ++ data) ->
    blen (stub ++ data) <= maxBsonMessageSize c ->
    dataHandler c data = delivered c (stub ++ data))) /\
  (blen stub + blen data <= 4 ->
   exists c', dataHandler c data = Finished c' /\
              emitted c' = emitted c /\ inflight c' = inflight c).
Proof.
  assert (parse_state_ok (set_parse None 0 0 (Some [x10]) conn0)) as Hok.
  { apply (ok_stub _ [x10]); try reflexivity. vm_compute. split; [reflexivity|discriminate]. }
  split; [exact Hok|]. split; [reflexivity|].
  apply (C9_stub_and_chunk (set_parse None 0 0 (Some [x10]) conn0) [x10]
           [x00; x00; x00; x00; x00] Hok).
  reflexivity.
Defined.

(** C9 as stated fails.  The stub [ff] and the chunk [ff ff ff] make
    exactly 4 bytes, which decode to -1: no length is read and no
    'parseError' is emitted; the three bytes are dropped and the stub is
    still [ff], so the concatenation is not kept either. *)
Lemma C9_counterexample :
  dataHandler conn0 [xff] = Finished (set_parse None 0 0 (Some [xff]) conn0) /\
  blen ([xff] ++ [xff; xff; xff]) = 4 /\
  read_size ([xff] ++ [xff; xff; xff]) = -1 /\
  dataHandler (set_parse None 0 0 (Some [xff]) conn0) [xff; xff; xff]
  = Finished (set_parse None 0 0 (Some [xff]) conn0) /\
  emitted (set_parse None 0 0 (Some [xff]) conn0) = [].
Proof. repeat split; vm_compute; reflexivity. Qed.

(** The default connection fed a whole frame, then a stub, then bytes that
    the stub swallows. *)
Lemma C10_witness :
  construct live_socket default_options globals0
  = Some (mkGlobals 1 None false ∅, conn0) /\
  exists c', feed conn0 [reply_frame; [x10]; [x00]; reply_frame] = Some c' /\
             parse_invariant c'.
Proof.
  assert (construct live_socket default_options globals0
          = Some (mkGlobals 1 None false ∅, conn0)) as Hnew by reflexivity.
  split; [exact Hnew|].
  exact (C10_parse_state_invariant live_socket default_options globals0 _ conn0
           [reply_frame; [x10]; [x00]; reply_frame] Hnew).
Defined.

(** * The claims on construction and lifecycle *)

Lemma connections_account_delete (i : Z) (g : Globals) :
  connections (account_delete i g)
  = if connectionAccounting g then connections g ∖ {[i]} else connections g.
Proof. unfold account_delete. destruct (connectionAccounting g); reflexivity. Qed.

Lemma connections_transport (ev : TransportEvent) (w : World) :
  connections (account_delete (id (w_conn w)) (w_globals w))
  = connections (w_globals (transport ev w)).
Proof. destruct ev; reflexivity. Qed.

Lemma not_in_connections_after_delete (i : Z) (g : Globals) :
  connectionAccounting g = true -> i ∉ connections (account_delete i g).
Proof.
  intros Hon. rewrite connections_account_delete, Hon.
  rewrite elem_of_difference, elem_of_singleton. intros [_ Hne]. apply Hne. reflexivity.
Qed.

Lemma invoke_app (callback : option Callback) (err : option Error)
    (invoked : list (Callback * option Error)) :
  invoke callback err invoked = invoked ++ invoke callback err [].
Proof. destruct callback; simpl; [reflexivity|]. symmetry. apply app_nil_r. Qed.

(** The bookkeeping of a second [destroy]: the table is as after the
    first, the spy is told again. *)
Lemma account_delete_twice (i : Z) (g : Globals) :
  connections (account_delete i (account_delete i g))
  = connections (account_delete i g) /\
  connectionAccountingSpy (account_delete i (account_delete i g))
  = (if connectionAccounting g
     then spy_call (SpyDeleteConnection i)
            (spy_call (SpyDeleteConnection i) (connectionAccountingSpy g))
     else connectionAccountingSpy g).
Proof.
  unfold account_delete.
  destruct (connectionAccounting g) eqn:Hon; simpl; rewrite Hon; simpl.
  - split; [apply difference_twice_L|reflexivity].
  - split; reflexivity.
Qed.

(** C4 (amended).  The constructor leaves the requested
    [keepAliveInitialDelay] (300000 when none is given) untouched unless it
    is greater than [socketTimeout]; only then it becomes half of
    [socketTimeout], rounded. *)
Theorem C4_keepAliveInitialDelay (socket : Socket) (options : SocketOptions)
    (g g' : Globals) (c : Connection) :
  construct socket options g = Some (g', c) ->
  socketTimeout c = typed_or (o_socketTimeout options) 360000 /\
  keepAliveInitialDelay c =
    (if socketTimeout c <? typed_or (o_keepAliveInitialDelay options) 300000
     then round_half (socketTimeout c)
     else typed_or (o_keepAliveInitialDelay options) 300000).
Proof.
  unfold construct. destruct (negb (o_bson options)); [discriminate|].
  intros [= _ <-]. split; reflexivity.
Qed.

(** A requested delay of 400000 with the default timeout of 360000. *)
Lemma C4_witness :
  let options :=
    mkSocketOptions None None true None (Some 400000) None None None None None None in
  construct live_socket options globals0
  = Some (mkGlobals 1 None false ∅, new_connection 0 live_socket options) /\
  socketTimeout (new_connection 0 live_socket options) = 360000 /\
  keepAliveInitialDelay (new_connection 0 live_socket options) = 180000.
Proof.
  split; [reflexivity|].
  exact (C4_keepAliveInitialDelay live_socket
           (mkSocketOptions None None true None (Some 400000) None None None None
              None None)
           globals0 _ _ eq_refl).
Defined.

(** C4 as stated fails.  With the defaults the delay stays 300000, above
    half of the socket timeout of 360000. *)
Lemma C4_counterexample :
  construct live_socket default_options globals0
  = Some (mkGlobals 1 None false ∅, conn0) /\
  keepAliveInitialDelay conn0 = 300000 /\
  socketTimeout conn0 = 360000 /\
  Z.min (typed_or (o_keepAliveInitialDelay default_options) 300000)
        (socketTimeout conn0 / 2) = 180000.
Proof. repeat split. Qed.

(** C5 (amended).  A transport 'error', 'timeout' or 'close' removes the
    connection from the accounting table when accounting is enabled and
    makes it emit the matching notification ('close' only without a prior
    error).  It sets no flag: [destroyed], the socket, the parse state and
    so the answer of [isConnected] are what they were. *)
Theorem C5_transport_event (ev : TransportEvent) (w : World) :
  connections (w_globals (transport ev w))
  = (if connectionAccounting (w_globals w)
     then connections (w_globals w) ∖ {[id (w_conn w)]}
     else connections (w_globals w)) /\
  (connectionAccounting (w_globals w) = true ->
   id (w_conn w) ∉ connections (w_globals (transport ev w))) /\
  emitted (w_conn (transport ev w)) = emitted (w_conn w) ++ notification ev (w_conn w) /\
  same_state (w_conn w) (w_conn (transport ev w)) /\
  isConnected (w_conn (transport ev w)) = isConnected (w_conn w) /\
  w_invoked (transport ev w) = w_invoked w.
Proof.
  rewrite <- !(connections_transport ev w).
  split; [apply connections_account_delete|].
  split; [apply not_in_connections_after_delete|].
  destruct ev as [err| |[|]]; simpl; rewrite ?app_nil_r; repeat split.
Qed.

(** C5 as stated fails.  After a 'timeout' on a socket that is still open,
    the connection is not marked destroyed, [isConnected] answers true, a
    write reaches the socket, and the next frame is parsed and emitted. *)
Lemma C5_counterexample :
  destroyed (w_conn (transport OnTimeout world0)) = false /\
  isConnected (w_conn (transport OnTimeout world0)) = Some true /\
  write (inl [x01]) (w_conn (transport OnTimeout world0))
  = Some (set_socket (Some (mkSocket false true [SockWrite [x01]]))
            (w_conn (transport OnTimeout world0)), true) /\
  dataHandler (w_conn (transport OnTimeout world0)) reply_frame
  = Finished (emit (EvMessage reply_message) (w_conn (transport OnTimeout world0))).
Proof. repeat split; vm_compute; reflexivity. Qed.

(** C8 (amended).  A second call of [destroy] with the same arguments
    leaves [destroyed], the accounting table, the notifications and the
    parse state as the first call left them, and cannot throw.  It is not
    silent: like the first call it invokes the callback (forced destroy),
    calls [destroy] or [end] on the socket, and notifies the accounting
    spy. *)
Theorem C8_destroy_twice (options : DestroyOptions) (callback : option Callback)
    (w : World) :
  let w1 := destroy options callback w in
  let w2 := destroy options callback w1 in
  destroyed (w_conn w2) = destroyed (w_conn w1) /\
  connections (w_globals w2) = connections (w_globals w1) /\
  emitted (w_conn w2) = emitted (w_conn w1) /\
  emitted (w_conn w1) = emitted (w_conn w) /\
  (bytesRead (w_conn w2), sizeOfMessage (w_conn w2), buffer (w_conn w2),
   stubBuffer (w_conn w2))
  = (bytesRead (w_conn w), sizeOfMessage (w_conn w), buffer (w_conn w),
     stubBuffer (w_conn w)) /\
  w_invoked w1 = w_invoked w ++ destroy_invokes options callback (w_conn w) /\
  w_invoked w2 = w_invoked w1 ++ destroy_invokes options callback (w_conn w) /\
  sock_calls <$> socket (w_conn w2)
  = (fun s => sock_calls s ++ [destroy_socket_call options callback;
                               destroy_socket_call options callback])
    <$> socket (w_conn w) /\
  connectionAccountingSpy (w_globals w2)
  = (if connectionAccounting (w_globals w)
     then spy_call (SpyDeleteConnection (id (w_conn w)))
            (spy_call (SpyDeleteConnection (id (w_conn w)))
               (connectionAccountingSpy (w_globals w)))
     else connectionAccountingSpy (w_globals w)).
Proof.
  cbv zeta. unfold destroy, destroy_invokes, destroy_socket_call.
  destruct w as [g c invoked]. simpl.
  pose proof (account_delete_twice (id c) g) as [Hconn Hspy].
  destruct (socket c) as [s|] eqn:Hs; simpl.
  - destruct (destroy_force options) eqn:Hf; simpl; rewrite ?Hf, ?Hs; simpl;
      rewrite Hconn, Hspy, <- ?app_assoc, ?app_nil_r; repeat split;
      apply invoke_app.
  - rewrite Hs. simpl. rewrite Hconn, Hspy, Hs, app_nil_r. repeat split.
Qed.

(** C8 as stated fails.  A forced destroy with a callback, called twice:
    the callback is invoked twice and the socket is destroyed twice. *)
Lemma C8_counterexample :
  w_invoked (destroy (OptObject (Some true)) (Some 7%nat) world0) = [(7%nat, None)] /\
  w_invoked (destroy (OptObject (Some true)) (Some 7%nat)
               (destroy (OptObject (Some true)) (Some 7%nat) world0))
  = [(7%nat, None); (7%nat, None)] /\
  sock_calls <$> socket (w_conn (destroy (OptObject (Some true)) (Some 7%nat)
                                   (destroy (OptObject (Some true)) (Some 7%nat) world0)))
  = Some [SockDestroy; SockDestroy].
Proof. repeat split. Qed.

(** * The claims on message dispatch *)

Section DispatchClaims.

Context `{Opcodes}.

(** [processMessage] on a compressed frame: no notification yet, one call
    of [decompress]. *)
Lemma processMessage_compressed (conn : Connection) (frame : bytes) (h : MsgHeader)
    (originalOpCode uncompressedSize : Z) :
  parseHeader frame = Some h -> h_opCode h = OP_COMPRESSED ->
  readInt32LE frame 16 = Some originalOpCode ->
  readInt32LE frame 20 = Some uncompressedSize ->
  processMessage conn frame
  = Some (call_decompress
            (mkDecompressCall (nth_error frame 24) (slice_from frame 25)
               (mkMsgHeader uncompressedSize (h_requestId h) (h_responseTo h)
                  originalOpCode true)
               frame) conn).
Proof.
  intros Hh Hop Ho Hs. unfold processMessage. rewrite Hh, Hop, Z.eqb_refl.
  cbn [negb]. cbv zeta.
  change (MESSAGE_HEADER_SIZE + 4 + 4 + 1) with 25.
  change (MESSAGE_HEADER_SIZE + 4 + 4) with 24.
  change (MESSAGE_HEADER_SIZE + 4) with 20.
  change MESSAGE_HEADER_SIZE with 16.
  rewrite Ho, Hs. reflexivity.
Qed.

(** C6.  A compressed frame makes [processMessage] call [decompress] once
    and emit nothing.  When the decompressor answers with a body, the
    callback adds exactly one notification to those already emitted: the
    corrupt-message 'error', and no 'message', if the length of the body
    differs from the declared uncompressed size; otherwise one 'message',
    built by [BinMsg] when the original opcode is [OP_MSG] and by [Response]
    when it is not, with the decompressed bytes as its body.  Either way no
    call of [decompress] is added, the parse state, the [destroyed] flag and
    the socket are untouched, and a frame that arrives next is handed to
    [processMessage] as usual. *)
Theorem C6_compressed_frame (conn : Connection) (frame : bytes) (h : MsgHeader)
    (originalOpCode uncompressedSize : Z) :
  parseHeader frame = Some h -> h_opCode h = OP_COMPRESSED ->
  readInt32LE frame 16 = Some originalOpCode ->
  readInt32LE frame 20 = Some uncompressedSize ->
  exists d : DecompressCall,
    processMessage conn frame = Some (call_decompress d conn) /\
    emitted (call_decompress d conn) = emitted conn /\
    inflight (call_decompress d conn) = inflight conn ++ [d] /\
    d_compressorID d = nth_error frame 24 /\
    d_payload d = slice_from frame 25 /\
    forall (later : Connection) (body : bytes),
      (blen body <> uncompressedSize ->
       decompressCallback d (inr body) later = emit (EvError MongoError_corrupt) later /\
       emitted (decompressCallback d (inr body) later)
       = emitted later ++ [EvError MongoError_corrupt]) /\
      (blen body = uncompressedSize ->
       decompressCallback d (inr body) later
       = emit (EvMessage
                 (mkDecodedMessage
                    (if originalOpCode =? OP_MSG then BinMsg else Response) frame
                    (mkMsgHeader uncompressedSize (h_requestId h) (h_responseTo h)
                       originalOpCode true)
                    body (responseOptions later))) later /\
       emitted (decompressCallback d (inr body) later)
       = emitted later
         ++ [EvMessage
               (mkDecodedMessage
                  (if originalOpCode =? OP_MSG then BinMsg else Response) frame
                  (mkMsgHeader uncompressedSize (h_requestId h) (h_responseTo h)
                     originalOpCode true)
                  body (responseOptions later))]) /\
      inflight (decompressCallback d (inr body) later) = inflight later /\
      same_state later (decompressCallback d (inr body) later) /\
      (parse_empty later ->
       forall next : bytes,
         4 < blen next -> read_size next = blen next ->
         blen next <= maxBsonMessageSize later ->
         dataHandler (decompressCallback d (inr body) later) next
         = delivered (decompressCallback d (inr body) later) next).
Proof.
  intros Hh Hop Ho Hs. eexists. split.
  { apply (processMessage_compressed conn frame h originalOpCode uncompressedSize);
      assumption. }
  split; [reflexivity|]. split; [reflexivity|].
  split; [reflexivity|]. split; [reflexivity|].
  intros later body. unfold decompressCallback, select_constructor. simpl.
  destruct (Z.eqb_spec (blen body) uncompressedSize) as [Heq|Hne]; simpl.
  - split; [intros Hne; contradiction|].
    split; [intros _; split; reflexivity|]. split; [reflexivity|].
    split; [apply same_state_emit|].
    intros He next Hn Hsize Hmax. apply handler_whole_frame; assumption.
  - split; [intros _; split; reflexivity|].
    split; [intros Heq; contradiction|]. split; [reflexivity|].
    split; [apply same_state_emit|].
    intros He next Hn Hsize Hmax. apply handler_whole_frame; assumption.
Qed.

(** C7 (amended).  The callback of [decompress] does not look at
    [destroyed].  Completing on a destroyed connection it adds to the
    notifications already emitted exactly the one it would add on a live
    connection: the decompressor's error when decompression failed, the
    corrupt-message error when the body has not the declared length, and
    otherwise the 'message', built by [BinMsg] for [OP_MSG] and by [Response]
    for any other opcode.  The connection stays destroyed and no call of
    [decompress] is added. *)
Theorem C7_late_decompression (d : DecompressCall) (result : Error + bytes)
    (c : Connection) :
  decompressCallback d result (set_destroyed true c)
  = set_destroyed true (decompressCallback d result c) /\
  destroyed (decompressCallback d result (set_destroyed true c)) = true /\
  (exists ev : Event,
     emitted (decompressCallback d result (set_destroyed true c)) = emitted c ++ [ev] /\
     match ev with
     | EvMessage _ | EvError _ => True
     | _ => False
     end) /\
  emitted (decompressCallback d result (set_destroyed true c))
  = emitted (decompressCallback d result c) /\
  inflight (decompressCallback d result (set_destroyed true c)) = inflight c /\
  (forall err : Error,
     result = inl err ->
     emitted (decompressCallback d result (set_destroyed true c))
     = emitted c ++ [EvError err]) /\
  (forall body : bytes,
     result = inr body -> blen body <> h_length (d_header d) ->
     emitted (decompressCallback d result (set_destroyed true c))
     = emitted c ++ [EvError MongoError_corrupt]) /\
  (forall body : bytes,
     result = inr body -> blen body = h_length (d_header d) ->
     emitted (decompressCallback d result (set_destroyed true c))
     = emitted c
       ++ [EvMessage
             (mkDecodedMessage
                (if h_opCode (d_header d) =? OP_MSG then BinMsg else Response)
                (d_message d) (d_header d) body (responseOptions c))]).
Proof.
  unfold decompressCallback, select_constructor.
  destruct result as [err|body].
  - simpl. split; [reflexivity|]. split; [reflexivity|].
    split; [eexists; split; [reflexivity|exact I]|].
    split; [reflexivity|]. split; [reflexivity|].
    split; [intros err' [= <-]; reflexivity|].
    split; intros body' Hres; discriminate.
  - destruct (Z.eqb_spec (blen body) (h_length (d_header d))) as [Heq|Hne]; simpl.
    + split; [reflexivity|]. split; [reflexivity|].
      split; [eexists; split; [reflexivity|exact I]|].
      split; [reflexivity|]. split; [reflexivity|].
      split; [intros err Hres; discriminate|].
      split; intros body' [= <-] Hlen; [contradiction|reflexivity].
    + split; [reflexivity|]. split; [reflexivity|].
      split; [eexists; split; [reflexivity|exact I]|].
      split; [reflexivity|]. split; [reflexivity|].
      split; [intros err Hres; discriminate|].
      split; intros body' [= <-] Hlen; [reflexivity|contradiction].
Qed.

End DispatchClaims.

(** The compressed frame of 28 bytes, whose declared uncompressed size
    is 3: a body of 3 bytes gives the 'message', a body of 2 the error. *)
Lemma C6_witness :
  parseHeader compressed_frame = Some (mkMsgHeader 28 0 0 2012 false) /\
  readInt32LE compressed_frame 16 = Some 2013 /\
  readInt32LE compressed_frame 20 = Some 3 /\
  processMessage conn0 compressed_frame = Some (call_decompress compressed_call conn0) /\
  emitted (call_decompress compressed_call conn0) = [] /\
  inflight (call_decompress compressed_call conn0) = [compressed_call] /\
  decompressCallback compressed_call (inr [x68; x69; x21]) conn0
  = emit (EvMessage (mkDecodedMessage BinMsg compressed_frame
                       (mkMsgHeader 3 0 0 2013 true) [x68; x69; x21]
                       (mkResponseOptions true true false))) conn0 /\
  emitted (decompressCallback compressed_call (inr [x68; x69; x21]) conn0)
  = [EvMessage (mkDecodedMessage BinMsg compressed_frame
                  (mkMsgHeader 3 0 0 2013 true) [x68; x69; x21]
                  (mkResponseOptions true true false))] /\
  decompressCallback compressed_call (inr [x68; x69]) conn0
  = emit (EvError MongoError_corrupt) conn0 /\
  emitted (decompressCallback compressed_call (inr [x68; x69]) conn0)
  = [EvError MongoError_corrupt].
Proof.
  assert (parseHeader compressed_frame = Some (mkMsgHeader 28 0 0 2012 false)) as Hh
    by reflexivity.
  assert (readInt32LE compressed_frame 16 = Some 2013) as Ho by reflexivity.
  assert (readInt32LE compressed_frame 20 = Some 3) as Hs by reflexivity.
  split; [exact Hh|]. split; [exact Ho|]. split; [exact Hs|].
  destruct (@C6_compressed_frame mongodb_opcodes conn0 compressed_frame _ 2013 3
              Hh eq_refl Ho Hs)
    as (d & Hcall & Hquiet & Hflight & _ & _ & Hcb).
  assert (d = compressed_call) as ->.
  { assert (Some (call_decompress d conn0) = Some (call_decompress compressed_call conn0))
      as Heq by (rewrite <- Hcall; reflexivity).
    injection Heq as Heq. exact Heq. }
  split; [exact Hcall|]. split; [exact Hquiet|]. split; [exact Hflight|].
  destruct (proj1 (proj2 (Hcb conn0 [x68; x69; x21])) eq_refl) as [Hmsg Hlog].
  split; [exact Hmsg|]. split; [exact Hlog|].
  apply (proj1 (Hcb conn0 [x68; x69])). vm_compute. discriminate.
Defined.

(** C7 as stated fails.  The compressed frame is received, the connection
    is destroyed, and then the decompressor completes with a body of the
    declared size: the destroyed connection emits the 'message'. *)
Lemma C7_counterexample :
  processMessage conn0 compressed_frame = Some (call_decompress compressed_call conn0) /\
  destroyed (w_conn (destroy (OptObject (Some true)) None
                       (mkWorld globals0 (call_decompress compressed_call conn0) [])))
  = true /\
  emitted (decompressCallback compressed_call (inr [x68; x69; x21])
             (w_conn (destroy (OptObject (Some true)) None
                        (mkWorld globals0 (call_decompress compressed_call conn0) []))))
  = [EvMessage (mkDecodedMessage BinMsg compressed_frame
                  (mkMsgHeader 3 0 0 2013 true) [x68; x69; x21]
                  (mkResponseOptions true true false))].
Proof. repeat split. Qed.

(** * Further properties of the frame parser *)

Section ParserMore.

Context `{Opcodes}.

Lemma reset_parse_id (c : Connection) : parse_empty c -> reset_parse c = c.
Proof.
  destruct c. unfold parse_empty. simpl. intros (-> & -> & -> & ->). reflexivity.
Qed.

Lemma processMessage_keeps_empty (c c' : Connection) (frame : bytes) :
  processMessage (reset_parse c) frame = Some c' ->
  parse_empty c' /\ maxBsonMessageSize c' = maxBsonMessageSize c.
Proof.
  intros Hp. apply processMessage_same_state in Hp.
  destruct Hp as (Hr & Hs & Hb & Hst & Hm & _).
  split; [|exact Hm]. repeat split; assumption.
Qed.

(** A chunk that begins with a whole frame: the frame goes to
    [processMessage] and the handler goes on with what follows it. *)
Lemma handler_frame_then_rest (c : Connection) (frame rest : bytes) :
  parse_empty c -> well_formed (maxBsonMessageSize c) frame ->
  dataHandler c (frame ++ rest) = then_handle c frame rest.
Proof.
  intros He (Hlen & Hsize & Hmax). unfold then_handle.
  pose proof (blen_nonneg rest) as Hrest.
  destruct (Z.eq_dec (blen rest) 0) as [Hr0|Hr0].
  { assert (rest = []) as -> by (apply blen_zero_nil; lia).
    rewrite app_nil_r, handler_whole_frame by assumption.
    unfold delivered. destruct (processMessage _ frame); [|reflexivity].
    symmetry. apply dataHandler_nil. }
  rewrite dataHandler_step, turn_empty by (rewrite ?blen_app; (assumption || lia)).
  cbv zeta. rewrite read_size_app, Hsize, blen_app by lia.
  repeat (case_if; zcmp).
  all: rewrite slice_0_take, slice_from_drop by lia.
  all: unfold blen; rewrite Nat2Z.id, take_app_length, drop_app_length.
  all: unfold dispatch; destruct (processMessage _ frame); reflexivity.
Qed.

(** The chunk that completes the accumulated frame and brings more. *)
Lemma handler_completes_rest (c : Connection) (received tail rest : bytes)
    (missing : Z) :
  accumulated c received missing -> blen tail = missing ->
  dataHandler c (tail ++ rest) = then_handle c (received ++ tail) rest.
Proof.
  intros Hacc Hlen. pose proof Hacc as (Hb & Hr & Hs & Hpos & Hmiss).
  pose proof (blen_nonneg rest) as Hrest. unfold then_handle.
  rewrite dataHandler_step by (rewrite blen_app; lia).
  unfold turn. rewrite (accumulated_accumulating _ _ _ Hacc), Hb, Hr, Hs.
  replace (blen received + missing - blen received) with missing by lia.
  rewrite blen_app. zcmp. rewrite copy_remaining by (rewrite blen_app; lia).
  rewrite slice_from_drop by lia.
  rewrite <- Hlen. unfold blen. rewrite Nat2Z.id, take_app_length, drop_app_length.
  unfold dispatch. destruct (processMessage _ _); reflexivity.
Qed.

Lemma handle_frames (frames : list bytes) (c : Connection) :
  parse_empty c -> Forall (well_formed (maxBsonMessageSize c)) frames ->
  dataHandler c (concat frames) = deliver_all c frames.
Proof.
  revert c. induction frames as [|frame frames IH]; intros c He Hall.
  - apply dataHandler_nil.
  - inversion Hall as [|? ? Hframe Hrest]; subst. simpl.
    rewrite handler_frame_then_rest by assumption. unfold then_handle.
    destruct (processMessage (reset_parse c) frame) as [c'|] eqn:Hp; [|reflexivity].
    apply processMessage_keeps_empty in Hp as [He' Hm]. apply IH; [exact He'|].
    rewrite Hm. exact Hrest.
Qed.

(** A length prefix from 0 to 4 that is not above the maximum: the second
    error path. *)
Lemma handler_small_length (c : Connection) (chunk : bytes) :
  parse_empty c -> 4 < blen chunk -> 0 <= read_size chunk <= 4 ->
  read_size chunk <= maxBsonMessageSize c ->
  dataHandler c chunk =
  Finished (reset_parse
              (emit (EvParseError
                       (mkParseErrorObject None (Some chunk) (read_size chunk) 0 None))
                 c)).
Proof.
  intros He Hlen Hsmall Hmax.
  rewrite dataHandler_step, turn_empty by (assumption || lia).
  cbv zeta. repeat (case_if; zcmp). apply dataHandler_nil.
Qed.

End ParserMore.

(** ** What the handler leaves alone *)

Section ParserFrame.

Context `{Opcodes}.

Lemma parsed_from_refl (c : Connection) : parsed_from c c.
Proof. split; [reflexivity|]. split; exists []; symmetry; apply app_nil_r. Qed.

Lemma parsed_from_trans (a b c : Connection) :
  parsed_from a b -> parsed_from b c -> parsed_from a c.
Proof.
  intros (Hs1 & (e1 & He1) & (d1 & Hd1)) (Hs2 & (e2 & He2) & (d2 & Hd2)).
  split; [congruence|]. split.
  - exists (e1 ++ e2). rewrite He2, He1. symmetry. apply app_assoc.
  - exists (d1 ++ d2). rewrite Hd2, Hd1. symmetry. apply app_assoc.
Qed.

Lemma parsed_from_set_parse (buf : option bytes) (size read : Z) (stub : option bytes)
    (c : Connection) :
  parsed_from c (set_parse buf size read stub c).
Proof. split; [reflexivity|]. split; exists []; symmetry; apply app_nil_r. Qed.

Lemma parsed_from_emit (ev : Event) (c : Connection) : parsed_from c (emit ev c).
Proof.
  split; [reflexivity|]. split; [exists [ev]; reflexivity|].
  exists []. symmetry. apply app_nil_r.
Qed.

Lemma parsed_from_processMessage (c c' : Connection) (message : bytes) :
  processMessage c message = Some c' -> parsed_from c c'.
Proof.
  unfold processMessage. intros Hp.
  destruct (parseHeader message); [|discriminate].
  destruct (negb _).
  - injection Hp as <-. apply parsed_from_emit.
  - destruct (readInt32LE message MESSAGE_HEADER_SIZE); [|discriminate].
    destruct (readInt32LE message (MESSAGE_HEADER_SIZE + 4)); [|discriminate].
    injection Hp as <-. split; [reflexivity|]. split.
    + exists []. symmetry. apply app_nil_r.
    + eexists. reflexivity.
Qed.

Lemma parsed_from_dispatch (c : Connection) (emitBuffer data : bytes) :
  match dispatch (reset_parse c) emitBuffer data with
  | Continue c' _ => parsed_from c c'
  | Return c' => parsed_from c c'
  | Throw c' => parsed_from c c'
  end.
Proof.
  unfold dispatch.
  destruct (processMessage (reset_parse c) emitBuffer) as [c'|] eqn:Hp.
  - eapply parsed_from_trans; [apply parsed_from_set_parse|].
    eapply parsed_from_processMessage, Hp.
  - apply parsed_from_set_parse.
Qed.

Lemma turn_parsed_from (c : Connection) (data : bytes) :
  match turn c data with
  | Continue c' _ => parsed_from c c'
  | Return c' => parsed_from c c'
  | Throw c' => parsed_from c c'
  end.
Proof.
  unfold turn.
  repeat match goal with
    | |- context [dispatch (reset_parse c) ?e ?d] =>
        generalize (parsed_from_dispatch c e d);
        generalize (dispatch (reset_parse c) e d); intros ? ?
    | |- context [if ?b then _ else _] => destruct b
    | |- context [match ?x with Some _ => _ | None => _ end] => destruct x
    end;
    first [ assumption
          | apply parsed_from_refl
          | apply parsed_from_set_parse
          | apply parsed_from_emit
          | eapply parsed_from_trans;
              [apply parsed_from_emit|apply parsed_from_set_parse] ].
Qed.

Lemma dataLoop_parsed_from (fuel : nat) (c c' : Connection) (data : bytes) :
  after (dataLoop fuel c data) = Some c' -> parsed_from c c'.
Proof.
  revert c data. induction fuel as [|fuel IH]; intros c data.
  - simpl. case_if; [discriminate|]. intros [= <-]. apply parsed_from_refl.
  - destruct (Z.le_gt_cases (blen data) 0) as [Hd|Hd].
    { rewrite (blen_zero_nil data Hd), dataLoop_nil. intros [= <-].
      apply parsed_from_refl. }
    rewrite dataLoop_step by lia.
    pose proof (turn_parsed_from c data) as Hturn.
    destruct (turn c data) as [c1 data1|c1|c1].
    + intros Hres. eapply parsed_from_trans; [exact Hturn|]. eapply IH, Hres.
    + intros [= <-]. exact Hturn.
    + intros [= <-]. exact Hturn.
Qed.

Lemma feed_parsed_from (chunks : list bytes) (c : Connection) :
  exists c', feed c chunks = Some c' /\ parsed_from c c'.
Proof.
  revert c. induction chunks as [|data chunks IH]; intros c; simpl.
  - exists c. split; [reflexivity|apply parsed_from_refl].
  - destruct (dataHandler_total c data) as [c1 Hc1]. rewrite Hc1.
    destruct (IH c1) as (c' & Hfeed & Hfrom). exists c'. split; [exact Hfeed|].
    eapply parsed_from_trans; [|exact Hfrom]. eapply dataLoop_parsed_from, Hc1.
Qed.

(** ** An exception leaves the parser empty *)

Lemma dispatch_throw (c c' : Connection) (emitBuffer data : bytes) :
  dispatch c emitBuffer data = Throw c' -> c' = c.
Proof.
  unfold dispatch. destruct (processMessage c emitBuffer); [discriminate|].
  intros [= <-]. reflexivity.
Qed.

Lemma turn_throw_empty (c c' : Connection) (data : bytes) :
  parse_state_ok c -> 0 < blen data -> turn c data = Throw c' -> parse_empty c'.
Proof.
  intros Hok Hd.
  destruct Hok as [He|stub E1 E2 E3 E4 E5|buf E1 E2 E3 E4 E5].
  - rewrite turn_empty by exact He. cbv zeta.
    repeat (case_if; zcmp); try discriminate;
      intros Hdis; apply dispatch_throw in Hdis as ->; apply reset_parse_empty.
  - unfold turn.
    rewrite accumulating_no, (held_stub_of c stub) by (assumption || lia).
    pose proof (concat_stub stub data) as Hcat.
    case_if; (destruct (copy_all stub _ 0); [|discriminate]); rewrite Hcat;
      discriminate.
  - unfold turn.
    assert (accumulating c = true) as ->.
    { unfold accumulating. zcmp; reflexivity. }
    rewrite E1. case_if; zcmp.
    + unfold copy_all.
      destruct (copy_defined data buf (bytesRead c) 0 (blen data))
        as [buf' Hcopy]; try lia.
      rewrite Hcopy. discriminate.
    + destruct (copy_defined data buf (bytesRead c) 0
                  (sizeOfMessage c - bytesRead c)) as [buf' Hcopy]; try lia.
      rewrite Hcopy.
      intros Hdis; apply dispatch_throw in Hdis as ->; apply reset_parse_empty.
Qed.

Lemma dataLoop_throw_empty (fuel : nat) (c c' : Connection) (data : bytes) :
  parse_state_ok c -> dataLoop fuel c data = Thrown c' -> parse_empty c'.
Proof.
  revert c data. induction fuel as [|fuel IH]; intros c data Hok.
  - simpl. case_if; discriminate.
  - destruct (Z.le_gt_cases (blen data) 0) as [Hd|Hd].
    { rewrite (blen_zero_nil data Hd), dataLoop_nil. discriminate. }
    rewrite dataLoop_step by lia.
    pose proof (turn_ok c data Hok Hd) as Hturn.
    destruct (turn c data) as [c1 data1|c1|c1] eqn:Hc1.
    + apply IH. exact Hturn.
    + discriminate.
    + intros [= <-]. exact (turn_throw_empty c c1 data Hok Hd Hc1).
Qed.

End ParserFrame.

(** ** The length prefix as a number *)

Lemma u8_range (b : byte) : 0 <= u8 b < 256.
Proof. destruct b; vm_compute; split; congruence. Qed.

Lemma lor_low_high (x k n : Z) :
  0 <= n -> 0 <= x < 2 ^ n -> Z.lor x (k * 2 ^ n) = x + k * 2 ^ n.
Proof.
  intros Hn Hx.
  assert (Z.land x (k * 2 ^ n) = 0) as Hland.
  { apply Z.bits_inj'. intros i Hi. rewrite Z.land_spec, Z.bits_0.
    destruct (Z.lt_ge_cases i n) as [Hlt|Hge].
    - rewrite Z.mul_pow2_bits_low by lia. apply andb_false_r.
    - rewrite <- (Z.mod_small x (2 ^ n)) by lia.
      rewrite Z.mod_pow2_bits_high by lia. reflexivity. }
  rewrite <- Z.lxor_lor by exact Hland.
  symmetry. apply Z.add_nocarry_lxor, Hland.
Qed.

Lemma toInt32_small (x : Z) : - 2 ^ 31 <= x < 2 ^ 31 -> toInt32 x = x.
Proof. intros Hx. unfold toInt32. rewrite Z.mod_small by lia. lia. Qed.

Lemma toInt32_high (x : Z) : 2 ^ 31 <= x < 2 ^ 32 -> toInt32 x = x - 2 ^ 32.
Proof.
  intros Hx. unfold toInt32.
  replace (x + 2 ^ 31) with ((x - 2 ^ 31) + 1 * 2 ^ 32) by lia.
  rewrite Z.mod_add by lia. rewrite Z.mod_small by lia. lia.
Qed.

Lemma read_size_value (b0 b1 b2 b3 : byte) (rest : bytes) :
  read_size (b0 :: b1 :: b2 :: b3 :: rest)
  = u8 b0 + 256 * u8 b1 + 65536 * u8 b2 + 16777216 * u8 b3
    - (if 128 <=? u8 b3 then 4294967296 else 0).
Proof.
  pose proof (u8_range b0). pose proof (u8_range b1).
  pose proof (u8_range b2). pose proof (u8_range b3).
  unfold read_size, byte_at, shl32. cbn [nth_error].
  rewrite !Z.shiftl_mul_pow2 by lia.
  rewrite !(toInt32_small (u8 _)) by lia.
  rewrite (toInt32_small (u8 b1 * 2 ^ 8)) by lia.
  rewrite (toInt32_small (u8 b2 * 2 ^ 16)) by lia.
  rewrite (lor_low_high (u8 b0) (u8 b1) 8) by lia.
  rewrite (lor_low_high _ (u8 b2) 16) by lia.
  destruct (Z.leb_spec 128 (u8 b3)).
  - rewrite toInt32_high by lia.
    replace (u8 b3 * 2 ^ 24 - 2 ^ 32) with ((u8 b3 - 256) * 2 ^ 24) by lia.
    rewrite lor_low_high by lia. lia.
  - rewrite toInt32_small by lia. rewrite lor_low_high by lia. lia.
Qed.

(** * Further theorems on the frame parser *)

Section ParserExtras.

Context `{Opcodes}.

(** X1.  The loop of the data handler comes to an end on every chunk, from
    every parse state, reachable or not; [turns] bounds its number of turns,
    and any fuel above that bound gives the handler's result. *)
Theorem X1_handler_terminates (c : Connection) (data : bytes) :
  (exists c', after (dataHandler c data) = Some c') /\
  forall fuel : nat,
    (turns c data < fuel)%nat -> dataLoop fuel c data = dataHandler c data.
Proof.
  split; [apply dataHandler_total|]. intros fuel Hfuel. apply dataLoop_enough, Hfuel.
Qed.

(** X2.  A frame below the maximum, cut into any number of pieces of which
    the first has more than 4 bytes (later pieces may be empty), is handed
    to [processMessage] exactly once, whole, when its last byte arrives. *)
Theorem X2_fragmented_frame (c : Connection) (piece : bytes) (pieces : list bytes) :
  parse_empty c -> 4 < blen piece ->
  read_size (piece ++ concat pieces) = blen (piece ++ concat pieces) ->
  blen (piece ++ concat pieces) < maxBsonMessageSize c ->
  feed c (piece :: pieces) = after (delivered c (piece ++ concat pieces)).
Proof. apply feed_fragmented. Qed.

(** X3.  A first chunk of 1 to 4 bytes followed by a chunk that brings the
    total above 4 leaves the connection exactly as the two chunks fed as
    one would. *)
Theorem X3_stub_split_transparent (c : Connection) (first second : bytes) :
  parse_empty c -> 0 < blen first <= 4 -> 4 < blen first + blen second ->
  feed c [first; second] = after (dataHandler c (first ++ second)).
Proof.
  intros He Hfirst Hboth. cbn [feed].
  rewrite handler_short_chunk by assumption. cbn [after].
  rewrite (handler_stub_concat _ first second);
    [|reflexivity|apply held_stub_of; [reflexivity|lia]|lia|lia].
  change (reset_parse (set_parse None 0 0 (Some first) c)) with (reset_parse c).
  rewrite reset_parse_id by exact He.
  destruct (after (dataHandler c (first ++ second))); reflexivity.
Qed.

(** X4.  Fed one byte per chunk, a stream is never parsed: the first byte
    is held as the stub, every later byte is dropped, and nothing is
    emitted. *)
Theorem X4_single_bytes_dropped (c : Connection) (b : byte) (rest : bytes) :
  parse_empty c ->
  feed c (map (fun x => [x]) (b :: rest)) = Some (set_parse None 0 0 (Some [b]) c).
Proof. apply feed_single_bytes. Qed.

(** X5.  A chunk made of whole frames: each frame is handed to
    [processMessage] in the order of arrival, and the handler stops at the
    first frame on which [processMessage] throws. *)
Theorem X5_frames_in_one_chunk (c : Connection) (frames : list bytes) :
  parse_empty c -> Forall (well_formed (maxBsonMessageSize c)) frames ->
  dataHandler c (concat frames) = deliver_all c frames.
Proof. intros He Hall. apply handle_frames; assumption. Qed.

(** X6.  While a frame is accumulated, a chunk that holds its missing
    bytes and more completes the frame, hands it to [processMessage], and
    is parsed on from the first byte after the frame. *)
Theorem X6_tail_then_next (c : Connection) (received tail rest : bytes) (missing : Z) :
  accumulated c received missing -> blen tail = missing ->
  dataHandler c (tail ++ rest) = then_handle c (received ++ tail) rest.
Proof. apply handler_completes_rest. Qed.

(** X7.  A length prefix from 0 to 4 (and not above the maximum) at the
    head of a chunk of more than 4 bytes: one 'parseError' that carries the
    chunk, the parser is cleared and the rest of the chunk is dropped. *)
Theorem X7_small_length_rejected (c : Connection) (chunk : bytes) :
  parse_empty c -> 4 < blen chunk -> 0 <= read_size chunk <= 4 ->
  read_size chunk <= maxBsonMessageSize c ->
  dataHandler c chunk =
  Finished (reset_parse
              (emit (EvParseError
                       (mkParseErrorObject None (Some chunk) (read_size chunk) 0 None))
                 c)).
Proof. apply handler_small_length. Qed.

(** X8.  Whatever chunks a new connection is fed, its parse state is then
    in one of three shapes: empty; a stub of 1 to 4 bytes and nothing else;
    or an accumulating buffer of exactly [sizeOfMessage] bytes with
    [4 < bytesRead < sizeOfMessage < maxBsonMessageSize] and no stub. *)
Theorem X8_parse_state_shapes (socket : Socket) (options : SocketOptions)
    (g g' : Globals) (c : Connection) (chunks : list bytes) :
  construct socket options g = Some (g', c) ->
  exists c',
    feed c chunks = Some c' /\
    (parse_empty c' \/
     (exists stub, stubBuffer c' = Some stub /\ 0 < blen stub <= 4 /\
                   buffer c' = None /\ bytesRead c' = 0 /\ sizeOfMessage c' = 0) \/
     (exists buf, buffer c' = Some buf /\ blen buf = sizeOfMessage c' /\
                  4 < bytesRead c' < sizeOfMessage c' /\
                  sizeOfMessage c' < maxBsonMessageSize c /\
                  stubBuffer c' = None)).
Proof.
  intros Hnew. unfold construct in Hnew.
  destruct (negb (o_bson options)); [discriminate|]. injection Hnew as _ <-.
  destruct (feed_ok chunks (new_connection (_id g) socket options))
    as (c' & Hfeed & Hok).
  { apply ok_empty. repeat split. }
  destruct (feed_parsed_from chunks (new_connection (_id g) socket options))
    as (c'' & Hfeed' & Hsame & _).
  assert (c'' = c') as -> by congruence.
  assert (maxBsonMessageSize c'
          = maxBsonMessageSize (new_connection (_id g) socket options)) as Hmax.
  { unfold settings in Hsame. congruence. }
  exists c'. split; [exact Hfeed|].
  destruct Hok as [He|stub E1 E2 E3 E4 E5|buf E1 E2 E3 E4 E5].
  - left. exact He.
  - right. left. exists stub. auto.
  - right. right. exists buf. rewrite <- Hmax. auto.
Qed.

(** X9.  Feeding chunks only changes the four parse fields and appends to
    the two logs: the handler never assigns the connection's id, endpoint,
    timeouts, [maxBsonMessageSize], response options, [destroyed] flag or
    socket, and never removes a notification already emitted. *)
Theorem X9_handler_leaves_settings (c : Connection) (chunks : list bytes) :
  exists c', feed c chunks = Some c' /\ parsed_from c c'.
Proof. apply feed_parsed_from. Qed.

(** X10.  When a call of the handler on a connection that was only ever
    fed chunks ends with an exception, the parser is empty: the held state
    is cleared before [processMessage] runs. *)
Theorem X10_exception_leaves_parser_empty (socket : Socket) (options : SocketOptions)
    (g g' : Globals) (c c1 c' : Connection) (chunks : list bytes) (data : bytes) :
  construct socket options g = Some (g', c) ->
  feed c chunks = Some c1 ->
  dataHandler c1 data = Thrown c' ->
  parse_empty c'.
Proof.
  intros Hnew Hfeed Hthrown. unfold construct in Hnew.
  destruct (negb (o_bson options)); [discriminate|]. injection Hnew as _ <-.
  destruct (feed_ok chunks (new_connection (_id g) socket options))
    as (c2 & Hfeed2 & Hok).
  { apply ok_empty. repeat split. }
  assert (c2 = c1) as -> by congruence.
  eapply dataLoop_throw_empty; eauto.
Qed.

(** X20.  A chunk of more than 4 bytes whose length prefix is below the
    maximum and above the bytes at hand starts a frame: nothing is emitted,
    a buffer of the announced size receives the bytes, [bytesRead] counts
    them and the chunk is used up. *)
Theorem X20_frame_start_accumulated (c : Connection) (data : bytes) :
  parse_empty c -> 4 < blen data ->
  read_size data < maxBsonMessageSize c -> blen data < read_size data ->
  dataHandler c data =
  Finished (set_parse (Some (data ++ alloc (read_size data - blen data)))
              (read_size data) (blen data) None c).
Proof. apply handler_starts_frame. Qed.

(** X19.  A call of [processMessage] that returns has left the parse
    state, the [destroyed] flag and the socket alone and has done exactly
    one thing: emitted one 'message' for the frame, or made one call of
    [decompress] for it. *)
Theorem X19_processMessage_effect (c c' : Connection) (message : bytes) :
  processMessage c message = Some c' ->
  same_state c c' /\
  ((exists msg, emitted c' = emitted c ++ [EvMessage msg] /\ m_raw msg = message /\
                inflight c' = inflight c) \/
   (exists d, emitted c' = emitted c /\ inflight c' = inflight c ++ [d] /\
              d_message d = message)).
Proof.
  intros Hp. split; [eapply processMessage_same_state, Hp|].
  unfold processMessage in Hp.
  destruct (parseHeader message); [|discriminate].
  destruct (negb _).
  - injection Hp as <-. left. eexists. repeat split.
  - destruct (readInt32LE message MESSAGE_HEADER_SIZE); [|discriminate].
    destruct (readInt32LE message (MESSAGE_HEADER_SIZE + 4)); [|discriminate].
    injection Hp as <-. right. eexists. repeat split.
Qed.

End ParserExtras.

(** X11.  The length prefix the handler computes from the first four bytes
    of a buffer is their little-endian two's-complement value, a signed
    32-bit integer that is negative exactly when the fourth byte is 128 or
    more. *)
Theorem X11_length_prefix_is_int32 (b0 b1 b2 b3 : byte) (rest : bytes) :
  read_size (b0 :: b1 :: b2 :: b3 :: rest)
  = u8 b0 + 256 * u8 b1 + 65536 * u8 b2 + 16777216 * u8 b3
    - (if 128 <=? u8 b3 then 4294967296 else 0) /\
  -2147483648 <= read_size (b0 :: b1 :: b2 :: b3 :: rest) < 2147483648 /\
  (read_size (b0 :: b1 :: b2 :: b3 :: rest) <? 0) = (128 <=? u8 b3).
Proof.
  rewrite read_size_value.
  pose proof (u8_range b0). pose proof (u8_range b1).
  pose proof (u8_range b2). pose proof (u8_range b3).
  destruct (Z.leb_spec 128 (u8 b3)); (split; [reflexivity|]); (split; [lia|]);
    zcmp; reflexivity.
Qed.

(** [reply_frame] cut after 6 bytes, an empty piece, 3 bytes and the last 7. *)
Lemma X2_witness :
  parse_empty conn0 /\
  4 < blen [x10; x00; x00; x00; x00; x00] /\
  feed conn0 [[x10; x00; x00; x00; x00; x00]; []; [x00; x00; x00];
              [x00; x00; x00; x01; x00; x00; x00]]
  = after (delivered conn0
             ([x10; x00; x00; x00; x00; x00]
              ++ concat [[]; [x00; x00; x00]; [x00; x00; x00; x01; x00; x00; x00]])).
Proof.
  assert (parse_empty conn0) as He by (repeat split).
  split; [exact He|]. split; [evaluated|].
  apply (@X2_fragmented_frame mongodb_opcodes conn0 [x10; x00; x00; x00; x00; x00]
           [[]; [x00; x00; x00]; [x00; x00; x00; x01; x00; x00; x00]] He);
    evaluated.
Defined.

(** [reply_frame] cut after its first 3 bytes. *)
Lemma X3_witness :
  parse_empty conn0 /\
  0 < blen (firstn 3 reply_frame) <= 4 /\
  4 < blen (firstn 3 reply_frame) + blen (skipn 3 reply_frame) /\
  feed conn0 [firstn 3 reply_frame; skipn 3 reply_frame]
  = after (dataHandler conn0 (firstn 3 reply_frame ++ skipn 3 reply_frame)).
Proof.
  assert (parse_empty conn0) as He by (repeat split).
  split; [exact He|]. split; [evaluated|]. split; [evaluated|].
  apply (@X3_stub_split_transparent mongodb_opcodes conn0 (firstn 3 reply_frame)
           (skipn 3 reply_frame) He);
    evaluated.
Defined.

(** The three bytes 10, 00, 00 one at a time. *)
Lemma X4_witness :
  parse_empty conn0 /\
  feed conn0 (map (fun x => [x]) [x10; x00; x00])
  = Some (set_parse None 0 0 (Some [x10]) conn0).
Proof.
  assert (parse_empty conn0) as He by (repeat split).
  split; [exact He|].
  exact (@X4_single_bytes_dropped mongodb_opcodes conn0 x10 [x00; x00] He).
Defined.

Lemma reply_frame_well_formed :
  well_formed (maxBsonMessageSize conn0) reply_frame.
Proof. evaluated. Qed.

Lemma second_frame_well_formed :
  well_formed (maxBsonMessageSize conn0) second_frame.
Proof. evaluated. Qed.

(** Two frames of 16 bytes in one chunk. *)
Lemma X5_witness :
  parse_empty conn0 /\
  Forall (well_formed (maxBsonMessageSize conn0)) [reply_frame; second_frame] /\
  dataHandler conn0 (concat [reply_frame; second_frame])
  = deliver_all conn0 [reply_frame; second_frame].
Proof.
  assert (parse_empty conn0) as He by (repeat split).
  assert (Forall (well_formed (maxBsonMessageSize conn0)) [reply_frame; second_frame])
    as Hall.
  { repeat constructor;
      first [apply reply_frame_well_formed | apply second_frame_well_formed]. }
  split; [exact He|]. split; [exact Hall|].
  exact (@X5_frames_in_one_chunk mongodb_opcodes conn0 [reply_frame; second_frame]
           He Hall).
Defined.

(** The last 10 bytes of [reply_frame] followed by [second_frame]. *)
Lemma X6_witness :
  accumulated conn_accumulating (firstn 6 reply_frame) 10 /\
  blen (skipn 6 reply_frame) = 10 /\
  dataHandler conn_accumulating (skipn 6 reply_frame ++ second_frame)
  = then_handle conn_accumulating (firstn 6 reply_frame ++ skipn 6 reply_frame)
      second_frame.
Proof.
  assert (accumulated conn_accumulating (firstn 6 reply_frame) 10) as Hacc
    by evaluated.
  assert (blen (skipn 6 reply_frame) = 10) as Hlen by reflexivity.
  split; [exact Hacc|]. split; [exact Hlen|].
  exact (@X6_tail_then_next mongodb_opcodes conn_accumulating (firstn 6 reply_frame)
           (skipn 6 reply_frame) second_frame 10 Hacc Hlen).
Defined.

(** The chunk [03 00 00 00 00]. *)
Lemma X7_witness :
  parse_empty conn0 /\
  4 < blen [x03; x00; x00; x00; x00] /\
  0 <= read_size [x03; x00; x00; x00; x00] <= 4 /\
  read_size [x03; x00; x00; x00; x00] <= maxBsonMessageSize conn0 /\
  dataHandler conn0 [x03; x00; x00; x00; x00] =
  Finished (reset_parse
              (emit (EvParseError
                       (mkParseErrorObject None (Some [x03; x00; x00; x00; x00])
                          (read_size [x03; x00; x00; x00; x00]) 0 None))
                 conn0)).
Proof.
  assert (parse_empty conn0) as He by (repeat split).
  split; [exact He|]. split; [evaluated|]. split; [evaluated|]. split; [evaluated|].
  apply (@X7_small_length_rejected mongodb_opcodes conn0 [x03; x00; x00; x00; x00] He);
    evaluated.
Defined.

(** The default connection after a whole frame and the first 6 bytes of
    the next. *)
Lemma X8_witness :
  construct live_socket default_options globals0
  = Some (mkGlobals 1 None false ∅, conn0) /\
  exists c',
    feed conn0 [reply_frame; firstn 6 reply_frame] = Some c' /\
    (parse_empty c' \/
     (exists stub, stubBuffer c' = Some stub /\ 0 < blen stub <= 4 /\
                   buffer c' = None /\ bytesRead c' = 0 /\ sizeOfMessage c' = 0) \/
     (exists buf, buffer c' = Some buf /\ blen buf = sizeOfMessage c' /\
                  4 < bytesRead c' < sizeOfMessage c' /\
                  sizeOfMessage c' < maxBsonMessageSize conn0 /\
                  stubBuffer c' = None)).
Proof.
  assert (construct live_socket default_options globals0
          = Some (mkGlobals 1 None false ∅, conn0)) as Hnew by reflexivity.
  split; [exact Hnew|].
  exact (@X8_parse_state_shapes mongodb_opcodes live_socket default_options globals0
           _ conn0 [reply_frame; firstn 6 reply_frame] Hnew).
Defined.

(** A frame of 5 bytes, too short for a header. *)
Lemma X10_witness :
  construct live_socket default_options globals0
  = Some (mkGlobals 1 None false ∅, conn0) /\
  feed conn0 [firstn 6 reply_frame; skipn 6 reply_frame]
  = Some (emit (EvMessage reply_message) conn0) /\
  dataHandler (emit (EvMessage reply_message) conn0) [x05; x00; x00; x00; x00]
  = Thrown (emit (EvMessage reply_message) conn0) /\
  parse_empty (emit (EvMessage reply_message) conn0).
Proof.
  assert (construct live_socket default_options globals0
          = Some (mkGlobals 1 None false ∅, conn0)) as Hnew by reflexivity.
  assert (feed conn0 [firstn 6 reply_frame; skipn 6 reply_frame]
          = Some (emit (EvMessage reply_message) conn0)) as Hfeed by evaluated.
  assert (dataHandler (emit (EvMessage reply_message) conn0) [x05; x00; x00; x00; x00]
          = Thrown (emit (EvMessage reply_message) conn0)) as Hthrown by evaluated.
  split; [exact Hnew|]. split; [exact Hfeed|]. split; [exact Hthrown|].
  exact (@X10_exception_leaves_parser_empty mongodb_opcodes live_socket default_options
           globals0 _ conn0 _ _ _ _ Hnew Hfeed Hthrown).
Defined.

(** [reply_frame] handed to [processMessage]. *)
Lemma X19_witness :
  processMessage conn0 reply_frame = Some (emit (EvMessage reply_message) conn0) /\
  same_state conn0 (emit (EvMessage reply_message) conn0) /\
  ((exists msg,
      emitted (emit (EvMessage reply_message) conn0) = emitted conn0 ++ [EvMessage msg] /\
      m_raw msg = reply_frame /\
      inflight (emit (EvMessage reply_message) conn0) = inflight conn0) \/
   (exists d,
      emitted (emit (EvMessage reply_message) conn0) = emitted conn0 /\
      inflight (emit (EvMessage reply_message) conn0) = inflight conn0 ++ [d] /\
      d_message d = reply_frame)).
Proof.
  assert (processMessage conn0 reply_frame
          = Some (emit (EvMessage reply_message) conn0)) as Hp by reflexivity.
  split; [exact Hp|].
  exact (@X19_processMessage_effect mongodb_opcodes conn0 _ reply_frame Hp).
Defined.

(** The first 6 bytes of [reply_frame]. *)
Lemma X20_witness :
  parse_empty conn0 /\
  4 < blen (firstn 6 reply_frame) /\
  read_size (firstn 6 reply_frame) < maxBsonMessageSize conn0 /\
  blen (firstn 6 reply_frame) < read_size (firstn 6 reply_frame) /\
  dataHandler conn0 (firstn 6 reply_frame) =
  Finished (set_parse
              (Some (firstn 6 reply_frame
                     ++ alloc (read_size (firstn 6 reply_frame)
                               - blen (firstn 6 reply_frame))))
              (read_size (firstn 6 reply_frame)) (blen (firstn 6 reply_frame))
              None conn0).
Proof.
  assert (parse_empty conn0) as He by (repeat split).
  split; [exact He|]. split; [evaluated|]. split; [evaluated|]. split; [evaluated|].
  apply (@X20_frame_start_accumulated mongodb_opcodes conn0 (firstn 6 reply_frame) He);
    evaluated.
Defined.

(** * Further theorems on construction and lifecycle *)

Lemma construct_inv (socket : Socket) (options : SocketOptions) (g g' : Globals)
    (c : Connection) :
  construct socket options g = Some (g', c) ->
  c = new_connection (_id g) socket options /\
  g' = (if connectionAccounting g
        then mkGlobals (_id g + 1)
               (spy_call (SpyAddConnection (_id g)) (connectionAccountingSpy g))
               true ({[_id g]} ∪ connections g)
        else mkGlobals (_id g + 1) (connectionAccountingSpy g) false (connections g)).
Proof.
  unfold construct. destruct (negb (o_bson options)); [discriminate|].
  simpl. intros [= <- <-]. split; [reflexivity|].
  destruct (connectionAccounting g); reflexivity.
Qed.

Lemma round_half_le (n : Z) : 0 <= n -> round_half n <= n.
Proof.
  intros Hn. unfold round_half.
  pose proof (Z.div_mod (n + 1) 2 ltac:(lia)).
  pose proof (Z.mod_pos_bound (n + 1) 2 ltac:(lia)). lia.
Qed.

Lemma union_then_difference (i : Z) (X : gset Z) :
  i ∉ X -> ({[i]} ∪ X) ∖ {[i]} = X.
Proof.
  intros Hi. apply set_eq. intros x.
  rewrite elem_of_difference, elem_of_union, elem_of_singleton.
  split.
  - intros [[->|Hx] Hne]; [contradiction|exact Hx].
  - intros Hx. split; [right; exact Hx|]. intros ->. contradiction.
Qed.

Lemma write_calls (buffers : list bytes) (s : Socket) :
  fold_left (fun s b => socket_call (SockWrite b) s) buffers s
  = mkSocket (sock_destroyed s) (sock_writable s)
      (sock_calls s ++ map SockWrite buffers).
Proof.
  revert s. induction buffers as [|b buffers IH]; intros s; simpl.
  - rewrite app_nil_r. destruct s; reflexivity.
  - rewrite IH. simpl. rewrite <- app_assoc. reflexivity.
Qed.

(** X12.  After construction [keepAliveInitialDelay] is never above a
    non-negative [socketTimeout]. *)
Theorem X12_keepAlive_within_socketTimeout (socket : Socket) (options : SocketOptions)
    (g g' : Globals) (c : Connection) :
  construct socket options g = Some (g', c) ->
  0 <= socketTimeout c ->
  keepAliveInitialDelay c <= socketTimeout c.
Proof.
  intros Hnew. apply construct_inv in Hnew as [-> _]. simpl.
  unfold effective_keepAliveInitialDelay. intros Hpos.
  pose proof (round_half_le _ Hpos). zcmp.
Qed.

(** A requested delay of 400000 against the default timeout of 360000. *)
Lemma X12_witness :
  construct live_socket
    (mkSocketOptions None None true None (Some 400000) None None None None None None)
    globals0
  = Some (mkGlobals 1 None false ∅,
          new_connection 0 live_socket
            (mkSocketOptions None None true None (Some 400000) None None None None
               None None)) /\
  keepAliveInitialDelay
    (new_connection 0 live_socket
       (mkSocketOptions None None true None (Some 400000) None None None None
          None None))
  <= socketTimeout
       (new_connection 0 live_socket
          (mkSocketOptions None None true None (Some 400000) None None None None
             None None)).
Proof.
  split; [reflexivity|].
  apply (X12_keepAlive_within_socketTimeout live_socket
           (mkSocketOptions None None true None (Some 400000) None None None None
              None None)
           globals0 _ _ eq_refl).
  evaluated.
Defined.

(** X13.  The constructor gives out ids in increasing order and keeps every
    key of the accounting table below the next id: the id of a new connection
    is not yet in the table; it is added when accounting is enabled and the
    table is left alone otherwise. *)
Theorem X13_fresh_ids (socket : Socket) (options : SocketOptions) (g g' : Globals)
    (c : Connection) :
  table_below_id g ->
  construct socket options g = Some (g', c) ->
  id c = _id g /\ _id g' = id c + 1 /\
  table_below_id g' /\
  (id c ∉ connections g) /\
  (connectionAccounting g = true -> connections g' = {[id c]} ∪ connections g) /\
  (connectionAccounting g = false -> connections g' = connections g).
Proof.
  intros Hbelow Hnew. apply construct_inv in Hnew as [-> ->]. simpl.
  split; [reflexivity|]. split; [destruct (connectionAccounting g); reflexivity|].
  split.
  { intros k. destruct (connectionAccounting g); simpl.
    - rewrite elem_of_union, elem_of_singleton. intros [->|Hk]; [lia|].
      apply Hbelow in Hk. lia.
    - intros Hk. apply Hbelow in Hk. lia. }
  split; [intros Hin; apply Hbelow in Hin; lia|].
  split; intros ->; reflexivity.
Qed.

Lemma table_below_id_empty (n : Z) (spy : option (list SpyCall)) (accounting : bool) :
  table_below_id (mkGlobals n spy accounting ∅).
Proof. intros k Hk. simpl in Hk. apply elem_of_empty in Hk. contradiction. Qed.

(** The first connection of a process with accounting enabled. *)
Lemma X13_witness :
  table_below_id (mkGlobals 0 None true ∅) /\
  construct live_socket default_options (mkGlobals 0 None true ∅)
  = Some (mkGlobals 1 None true ({[0]} ∪ ∅), conn0) /\
  id conn0 = 0 /\ _id (mkGlobals 1 None true ({[0]} ∪ ∅)) = id conn0 + 1 /\
  table_below_id (mkGlobals 1 None true ({[0]} ∪ ∅)) /\
  (id conn0 ∉ connections (mkGlobals 0 None true ∅)) /\
  (connectionAccounting (mkGlobals 0 None true ∅) = true ->
   connections (mkGlobals 1 None true ({[0]} ∪ ∅))
   = {[id conn0]} ∪ connections (mkGlobals 0 None true ∅)) /\
  (connectionAccounting (mkGlobals 0 None true ∅) = false ->
   connections (mkGlobals 1 None true ({[0]} ∪ ∅))
   = connections (mkGlobals 0 None true ∅)).
Proof.
  split; [apply table_below_id_empty|]. split; [reflexivity|].
  exact (X13_fresh_ids live_socket default_options (mkGlobals 0 None true ∅) _ conn0
           (table_below_id_empty 0 None true) eq_refl).
Defined.

(** X14.  With accounting enabled, constructing a connection and then
    destroying it leaves the accounting table as it was before, and the spy
    has been told of the addition and then of the deletion. *)
Theorem X14_construct_destroy_round_trip (socket : Socket) (options : SocketOptions)
    (g g' : Globals) (c : Connection) (how : DestroyOptions)
    (callback : option Callback) (invoked : list (Callback * option Error)) :
  table_below_id g -> connectionAccounting g = true ->
  construct socket options g = Some (g', c) ->
  connections (w_globals (destroy how callback (mkWorld g' c invoked)))
  = connections g /\
  connectionAccountingSpy (w_globals (destroy how callback (mkWorld g' c invoked)))
  = spy_call (SpyDeleteConnection (id c))
      (spy_call (SpyAddConnection (id c)) (connectionAccountingSpy g)).
Proof.
  intros Hbelow Hon Hnew. apply construct_inv in Hnew as [-> ->]. rewrite Hon.
  assert (_id g ∉ connections g) as Hfresh.
  { intros Hin. apply Hbelow in Hin. lia. }
  unfold destroy. simpl. unfold account_delete. simpl.
  destruct (destroy_force how); simpl;
    (split; [apply union_then_difference, Hfresh|reflexivity]).
Qed.

(** Accounting enabled with a spy, then one connection built and destroyed. *)
Lemma X14_witness :
  table_below_id (enableConnectionAccounting true globals0) /\
  connectionAccounting (enableConnectionAccounting true globals0) = true /\
  construct live_socket default_options (enableConnectionAccounting true globals0)
  = Some (mkGlobals 1 (Some [SpyAddConnection 0]) true ({[0]} ∪ ∅), conn0) /\
  connections
    (w_globals (destroy OptUndefined None
                  (mkWorld (mkGlobals 1 (Some [SpyAddConnection 0]) true ({[0]} ∪ ∅))
                     conn0 [])))
  = connections (enableConnectionAccounting true globals0) /\
  connectionAccountingSpy
    (w_globals (destroy OptUndefined None
                  (mkWorld (mkGlobals 1 (Some [SpyAddConnection 0]) true ({[0]} ∪ ∅))
                     conn0 [])))
  = spy_call (SpyDeleteConnection (id conn0))
      (spy_call (SpyAddConnection (id conn0))
         (connectionAccountingSpy (enableConnectionAccounting true globals0))).
Proof.
  split; [apply table_below_id_empty|]. split; [reflexivity|]. split; [reflexivity|].
  exact (X14_construct_destroy_round_trip live_socket default_options
           (enableConnectionAccounting true globals0) _ conn0 OptUndefined None []
           (table_below_id_empty 0 (Some []) true) eq_refl eq_refl).
Defined.

(** X15.  Entries outlive the accounting: once accounting is disabled,
    neither [destroy] nor a transport event removes a connection that was
    added while it was enabled. *)
Theorem X15_disabled_accounting_keeps_entries (socket : Socket)
    (options : SocketOptions) (g g' : Globals) (c : Connection)
    (how : DestroyOptions) (callback : option Callback)
    (invoked : list (Callback * option Error)) :
  connectionAccounting g = true ->
  construct socket options g = Some (g', c) ->
  id c ∈ connections g' /\
  id c ∈ connections
           (w_globals (destroy how callback
                         (mkWorld (disableConnectionAccounting g') c invoked))) /\
  forall ev : TransportEvent,
    id c ∈ connections
             (w_globals (transport ev
                           (mkWorld (disableConnectionAccounting g') c invoked))).
Proof.
  intros Hon Hnew. apply construct_inv in Hnew as [-> ->]. rewrite Hon. simpl.
  assert (_id g ∈ ({[_id g]} ∪ connections g : gset Z)) as Hin.
  { apply elem_of_union. left. apply elem_of_singleton. reflexivity. }
  split; [exact Hin|]. split.
  - unfold destroy. simpl. destruct (destroy_force how); exact Hin.
  - intros [err| |hadError]; exact Hin.
Qed.

(** Accounting enabled, one connection built, accounting disabled. *)
Lemma X15_witness :
  connectionAccounting (mkGlobals 0 None true ∅) = true /\
  construct live_socket default_options (mkGlobals 0 None true ∅)
  = Some (mkGlobals 1 None true ({[0]} ∪ ∅), conn0) /\
  id conn0 ∈ connections (mkGlobals 1 None true ({[0]} ∪ ∅)) /\
  id conn0 ∈ connections
               (w_globals (destroy OptUndefined None
                             (mkWorld (disableConnectionAccounting
                                         (mkGlobals 1 None true ({[0]} ∪ ∅)))
                                conn0 []))) /\
  forall ev : TransportEvent,
    id conn0 ∈ connections
                 (w_globals (transport ev
                               (mkWorld (disableConnectionAccounting
                                           (mkGlobals 1 None true ({[0]} ∪ ∅)))
                                  conn0 []))).
Proof.
  split; [reflexivity|]. split; [reflexivity|].
  exact (X15_disabled_accounting_keeps_entries live_socket default_options
           (mkGlobals 0 None true ∅) _ conn0 OptUndefined None [] eq_refl eq_refl).
Defined.

(** X16.  After a forced [destroy] of a connection that has a socket, the
    connection is marked destroyed, [isConnected] answers false, and
    [write] returns false without writing anything; the callback, if one
    was passed, has been called once with no error. *)
Theorem X16_forced_destroy_closes (w : World) (s : Socket)
    (callback : option Callback) :
  socket (w_conn w) = Some s ->
  destroyed (w_conn (destroy (OptObject (Some true)) callback w)) = true /\
  isConnected (w_conn (destroy (OptObject (Some true)) callback w)) = Some false /\
  (forall buffer : bytes + list bytes,
     write buffer (w_conn (destroy (OptObject (Some true)) callback w))
     = Some (w_conn (destroy (OptObject (Some true)) callback w), false)) /\
  w_invoked (destroy (OptObject (Some true)) callback w)
  = invoke callback None (w_invoked w).
Proof.
  intros Hs. unfold destroy. simpl. rewrite Hs. simpl.
  split; [reflexivity|]. split; [reflexivity|]. split; [|reflexivity].
  intros buffer. reflexivity.
Qed.

(** The first connection, destroyed by force with callback 7. *)
Lemma X16_witness :
  socket (w_conn world0) = Some live_socket /\
  destroyed (w_conn (destroy (OptObject (Some true)) (Some 7%nat) world0)) = true /\
  isConnected (w_conn (destroy (OptObject (Some true)) (Some 7%nat) world0))
  = Some false /\
  (forall buffer : bytes + list bytes,
     write buffer (w_conn (destroy (OptObject (Some true)) (Some 7%nat) world0))
     = Some (w_conn (destroy (OptObject (Some true)) (Some 7%nat) world0), false)) /\
  w_invoked (destroy (OptObject (Some true)) (Some 7%nat) world0)
  = invoke (Some 7%nat) None (w_invoked world0).
Proof.
  split; [reflexivity|].
  exact (X16_forced_destroy_closes world0 live_socket (Some 7%nat) eq_refl).
Defined.

(** X17.  A [destroy] without [force] on a connection that has a socket
    only calls [socket.end]: the connection is not yet marked destroyed and
    the callback is not yet called.  Both happen when the function handed
    to [socket.end] runs: [destroyed] is set and the callback receives the
    socket's error. *)
Theorem X17_orderly_destroy (w : World) (s : Socket) (how : DestroyOptions)
    (callback : option Callback) :
  socket (w_conn w) = Some s -> destroy_force how = false ->
  destroyed (w_conn (destroy how callback w)) = destroyed (w_conn w) /\
  w_invoked (destroy how callback w) = w_invoked w /\
  socket (w_conn (destroy how callback w))
  = Some (mkSocket (sock_destroyed s) (sock_writable s)
            (sock_calls s ++ [SockEnd (destroy_callback how callback)])) /\
  forall err : option Error,
    destroyed (w_conn (endCallback (destroy_callback how callback) err
                         (destroy how callback w))) = true /\
    w_invoked (endCallback (destroy_callback how callback) err
                 (destroy how callback w))
    = invoke (destroy_callback how callback) err (w_invoked w).
Proof.
  intros Hs Hf. unfold destroy. rewrite Hs, Hf. simpl.
  repeat split.
Qed.

(** The first connection, destroyed with the callback as only argument. *)
Lemma X17_witness :
  socket (w_conn world0) = Some live_socket /\
  destroy_force (OptFunction 7%nat) = false /\
  destroyed (w_conn (destroy (OptFunction 7%nat) None world0))
  = destroyed (w_conn world0) /\
  w_invoked (destroy (OptFunction 7%nat) None world0) = w_invoked world0 /\
  socket (w_conn (destroy (OptFunction 7%nat) None world0))
  = Some (mkSocket (sock_destroyed live_socket) (sock_writable live_socket)
            (sock_calls live_socket
             ++ [SockEnd (destroy_callback (OptFunction 7%nat) None)])) /\
  forall err : option Error,
    destroyed (w_conn (endCallback (destroy_callback (OptFunction 7%nat) None) err
                         (destroy (OptFunction 7%nat) None world0))) = true /\
    w_invoked (endCallback (destroy_callback (OptFunction 7%nat) None) err
                 (destroy (OptFunction 7%nat) None world0))
    = invoke (destroy_callback (OptFunction 7%nat) None) err (w_invoked world0).
Proof.
  split; [reflexivity|]. split; [reflexivity|].
  exact (X17_orderly_destroy world0 live_socket (OptFunction 7%nat) None
           eq_refl eq_refl).
Defined.

(** X18.  [write] looks at the socket's [destroyed] flag only, not at the
    connection's.  On a socket that is not destroyed it writes the buffers
    in the order given, changes nothing else and returns true, and one
    buffer is written as an array of one; on a destroyed socket it returns
    false and writes nothing. *)
Theorem X18_write_in_order (c : Connection) (s : Socket) :
  socket c = Some s ->
  (sock_destroyed s = false ->
   (forall buffers : list bytes,
      write (inr buffers) c
      = Some (set_socket
                (Some (mkSocket false (sock_writable s)
                         (sock_calls s ++ map SockWrite buffers))) c,
              true)) /\
   (forall b : bytes, write (inl b) c = write (inr [b]) c)) /\
  (sock_destroyed s = true ->
   forall buffer : bytes + list bytes, write buffer c = Some (c, false)).
Proof.
  intros Hs. unfold write. rewrite Hs. split.
  - intros Hlive. rewrite Hlive. simpl. split; [|reflexivity].
    intros buffers. rewrite write_calls, Hlive. reflexivity.
  - intros Hdead. rewrite Hdead. reflexivity.
Qed.

(** Two buffers written on the first connection. *)
Lemma X18_witness :
  socket conn0 = Some live_socket /\
  write (inr [[x01]; [x02; x03]]) conn0
  = Some (set_socket
            (Some (mkSocket false true [SockWrite [x01]; SockWrite [x02; x03]]))
            conn0, true).
Proof.
  split; [reflexivity|].
  exact (proj1 (proj1 (X18_write_in_order conn0 live_socket eq_refl) eq_refl)
           [[x01]; [x02; x03]]).
Defined.

(** X21.  That every key of the accounting table is below the next id is
    kept by enabling and disabling the accounting, by [destroy] and by the
    three transport events (and by the constructor, see X13), so it holds
    throughout the life of a process. *)
Theorem X21_table_invariant (g : Globals) :
  table_below_id g ->
  (forall spy : bool, table_below_id (enableConnectionAccounting spy g)) /\
  table_below_id (disableConnectionAccounting g) /\
  (forall (how : DestroyOptions) (callback : option Callback) (c : Connection)
          (invoked : list (Callback * option Error)),
     table_below_id (w_globals (destroy how callback (mkWorld g c invoked)))) /\
  (forall (ev : TransportEvent) (c : Connection)
          (invoked : list (Callback * option Error)),
     table_below_id (w_globals (transport ev (mkWorld g c invoked)))).
Proof.
  intros Hbelow.
  assert (forall i, table_below_id (account_delete i g)) as Hdel.
  { intros i k. unfold account_delete.
    destruct (connectionAccounting g); simpl; [|apply Hbelow].
    rewrite elem_of_difference. intros [Hk _]. apply Hbelow, Hk. }
  split; [intros spy; apply table_below_id_empty|].
  split; [exact Hbelow|]. split.
  - intros how callback c invoked. unfold destroy. simpl.
    destruct (socket c); [destruct (destroy_force how)|]; apply Hdel.
  - intros [err| |hadError] c invoked; apply Hdel.
Qed.

(** The table of a process that has built one connection under accounting. *)
Lemma X21_witness :
  table_below_id (mkGlobals 1 None true ({[0]} ∪ ∅)) /\
  table_below_id
    (w_globals (destroy OptUndefined None
                  (mkWorld (mkGlobals 1 None true ({[0]} ∪ ∅)) conn0 []))).
Proof.
  assert (table_below_id (mkGlobals 1 None true ({[0]} ∪ ∅))) as Hbelow.
  { intros k. simpl. rewrite elem_of_union, elem_of_singleton, elem_of_empty.
    intros [->|[]]. reflexivity. }
  split; [exact Hbelow|].
  exact (proj1 (proj2 (proj2 (X21_table_invariant _ Hbelow))) OptUndefined None conn0 []).
Defined.
